(** * SO(8) supergravity extrema: tensor invariants, potential and scan driver

    A shallow embedding of [so8_supergravity.py].  Python integers are
    modelled as [Z]; float64 values are idealised as exact rationals [Q]
    (every finite double is one; rounding is not modelled) and complex128
    as pairs of rationals.  Loops that need not terminate carry fuel. *)

From Stdlib Require Import ZArith QArith String Ascii List Lia Bool Btauto.
From Stdlib Require Import Setoid Morphisms.
From stdpp Require Import base list gmap fin_sets.

(** ** Outcomes of Python code that may raise or loop *)

Inductive outcome (A : Type) : Type :=
| Returns (a : A)
| Raises
| Diverges.
Arguments Returns {A} a.
Arguments Raises {A}.
Arguments Diverges {A}.

(** ** Python list indexing *)

Module PyList.

(** Position addressed by index [i] in a list of length [len]: negative
    indices count from the end, anything else is an IndexError. *)
Definition position (len : nat) (i : Z) : option nat :=
  if decide (0 <= i < Z.of_nat len)%Z then Some (Z.to_nat i)
  else if decide (- Z.of_nat len <= i < 0)%Z then Some (Z.to_nat (Z.of_nat len + i))
  else None.

Definition getitem (q : list Z) (i : Z) : option Z :=
  match position (length q) i with
  | Some k => q !! k
  | None => None
  end.

Definition setitem (q : list Z) (i : Z) (v : Z) : option (list Z) :=
  match position (length q) i with
  | Some k => Some (<[k:=v]> q)
  | None => None
  end.

End PyList.

(** ** [permutation_sign] *)

(** The inner [while n != q[n]] loop, with the swap
    [q[n], q[qn] = q[qn], q[n]]: the right-hand side is read first, then
    [q[n]] and [q[qn]] are stored in that order. *)
Fixpoint swap_until_fixed (fuel : nat) (n : Z) (q : list Z) (parity : Z)
  : outcome (list Z * Z) :=
  match fuel with
  | O => Diverges
  | S fuel' =>
    match PyList.getitem q n with
    | None => Raises
    | Some qn =>
      if decide (n = qn) then Returns (q, parity)
      else
        match PyList.getitem q qn, PyList.getitem q n with
        | Some a, Some b =>
          match PyList.setitem q n a with
          | None => Raises
          | Some q1 =>
            match PyList.setitem q1 qn b with
            | None => Raises
            | Some q2 => swap_until_fixed fuel' n q2 (- parity)%Z
            end
          end
        | _, _ => Raises
        end
    end
  end.

(** The outer [for n in range(len(p))] loop. *)
Fixpoint sign_loop (fuel : nat) (ns : list nat) (q : list Z) (parity : Z)
  : outcome Z :=
  match ns with
  | [] => Returns parity
  | n :: ns' =>
    match swap_until_fixed fuel (Z.of_nat n) q parity with
    | Returns (q', parity') => sign_loop fuel ns' q' parity'
    | Raises => Raises
    | Diverges => Diverges
    end
  end.

(** [fuel] bounds the iterations of each [while] loop. *)
Definition permutation_sign_fuel (fuel : nat) (p : list Z) : outcome Z :=
  let q := p in
  sign_loop fuel (seq 0 (length p)) q 1%Z.

(** Callers on index tuples use the bound [len(p) + 1], which the
    termination theorem below shows to be enough on every permutation. *)
Definition permutation_sign (p : list Z) : outcome Z :=
  permutation_sign_fuel (S (length p)) p.

(** A tuple of indices, as the Python integers it holds. *)
Definition as_ints (l : list nat) : list Z := Z.of_nat <$> l.

(** *** Parity by counting inversions *)

(** Parity of the number of elements of [l] below [x]. *)
Fixpoint odd_below (x : Z) (l : list Z) : bool :=
  match l with
  | [] => false
  | y :: l' => xorb (y <? x)%Z (odd_below x l')
  end.

(** Parity of the number of elements of [l] above [x]. *)
Fixpoint odd_above (x : Z) (l : list Z) : bool :=
  match l with
  | [] => false
  | y :: l' => xorb (x <? y)%Z (odd_above x l')
  end.

(** Parity of the number of inversions of [l]: pairs of positions [i < j]
    with [l[i] > l[j]]. *)
Fixpoint odd_inversions (l : list Z) : bool :=
  match l with
  | [] => false
  | x :: l' => xorb (odd_below x l') (odd_inversions l')
  end.

Definition parity_sign (p : list Z) : Z :=
  if odd_inversions p then (-1)%Z else 1%Z.

(** [p] is a permutation of [0 .. len(p) - 1]. *)
Definition is_permutation (p : list Z) : Prop :=
  p ≡ₚ (Z.of_nat <$> seq 0 (length p)).


(** Parity of the number of pairs [(a, b)], [a] in [l1] and [b] in [l2],
    with [b < a]; used to split inversion counts over concatenations. *)
Fixpoint odd_cross (l1 l2 : list Z) : bool :=
  match l1 with
  | [] => false
  | a :: l1' => xorb (odd_below a l2) (odd_cross l1' l2)
  end.

(** Range predicate on list entries. *)
Definition in_range (len : nat) (x : Z) : Prop := (0 <= x < Z.of_nat len)%Z.

(** ** The outcome monad *)

Definition outcome_bind {A B} (f : A -> outcome B) (m : outcome A) : outcome B :=
  match m with
  | Returns a => f a
  | Raises => Raises
  | Diverges => Diverges
  end.

#[global] Instance outcome_mbind : MBind outcome := @outcome_bind.
#[global] Instance outcome_mret : MRet outcome := @Returns.

(** A lookup or store that raises when Python would. *)
Definition or_raise {A} (o : option A) : outcome A :=
  match o with
  | Some a => Returns a
  | None => Raises
  end.

(** A list comprehension whose element expression may raise. *)
Fixpoint map_outcome {X Y} (f : X -> outcome Y) (xs : list X) : outcome (list Y) :=
  match xs with
  | [] => Returns []
  | x :: xs' => y ← f x; ys ← map_outcome f xs'; Returns (y :: ys)
  end.

(** Monadic left fold: a [for] loop whose body may raise. *)
Fixpoint for_each {S X} (body : S -> X -> outcome S) (xs : list X) (s : S)
  : outcome S :=
  match xs with
  | [] => Returns s
  | x :: xs' => s' ← body s x; for_each body xs' s'
  end.

(** ** Numbers *)

#[global] Instance Q_eq_dec : EqDecision Q.
Proof. solve_decision. Defined.


(** complex128, idealised as a pair of rationals. *)
Record C : Type := mkC { re : Q; im : Q }.

#[global] Instance C_eq_dec : EqDecision C.
Proof. solve_decision. Defined.

Definition Cadd (a b : C) : C := mkC (re a + re b) (im a + im b).
Definition Csub (a b : C) : C := mkC (re a - re b) (im a - im b).
Definition Cmul (a b : C) : C :=
  mkC (re a * re b - im a * im b) (re a * im b + im a * re b).
Definition Copp (a : C) : C := mkC (- re a) (- im a).
Definition Cconj (a : C) : C := mkC (re a) (- im a).
Definition RtoC (x : Q) : C := mkC x 0.
Definition Cscale (x : Q) (a : C) : C := mkC (x * re a) (x * im a).
Definition Ceq (a b : C) : Prop := re a == re b /\ im a == im b.
Definition Ceq_bool (a b : C) : bool := Qeq_bool (re a) (re b) && Qeq_bool (im a) (im b).

(** The imaginary unit [1.0j]. *)
Definition Ci : C := mkC 0 1.

(** The arithmetic numpy and TensorFlow contractions need of a dtype. *)
Class Num (A : Type) : Type := {
  num0 : A;
  num1 : A;
  nadd : A -> A -> A;
  nmul : A -> A -> A
}.

#[global] Instance Num_Q : Num Q :=
  {| num0 := 0%Q; num1 := 1%Q; nadd := Qplus; nmul := Qmult |}.
#[global] Instance Num_C : Num C :=
  {| num0 := RtoC 0; num1 := RtoC 1; nadd := Cadd; nmul := Cmul |}.

(** Sum of [f 0 .. f (n-1)]. *)
Fixpoint sum_range {A} `{Num A} (n : nat) (f : nat -> A) : A :=
  match n with
  | O => num0
  | S k => nadd (sum_range k f) (f k)
  end.

(** ** numpy arrays filled by item assignment *)

(** An array as nested lists, one level per axis. *)
#[warnings="-register-all"] Inductive ndarray (A : Type) : Type :=
| Scalar (a : A)
| Axis (items : list (ndarray A)).
Arguments Scalar {A} a.
Arguments Axis {A} items.

Module Nd.
Section Nd.
Context {A : Type}.

  (** [numpy.zeros(shape)] *)
Fixpoint zeros (z : A) (shape : list nat) : ndarray A :=
match shape with
| [] => Scalar z
| d :: shape' => Axis (replicate d (zeros z shape'))
end.

  (** [t[idx]] for a full index tuple of naturals; [None] is IndexError. *)
Fixpoint get (t : ndarray A) (idx : list nat) : option A :=
match idx, t with
| [], Scalar a => Some a
| i :: idx', Axis items =>
  match items !! i with
  | Some s => get s idx'
  | None => None
  end
| _, _ => None
end.

Fixpoint map_leaves {B} (f : A -> B) (t : ndarray A) : ndarray B :=
match t with
| Scalar a => Scalar (f a)
| Axis items => Axis (List.map (map_leaves f) items)
end.

  (** [t[idx] = v]: a full index stores one entry, a shorter one fills the
  sub-array it selects, a longer or out-of-range one raises. *)
Fixpoint set (t : ndarray A) (idx : list nat) (v : A) : option (ndarray A) :=
match idx with
| [] => Some (map_leaves (fun _ => v) t)
| i :: idx' =>
  match t with
  | Scalar _ => None
  | Axis items =>
    match items !! i with
    | Some s =>
      match set s idx' v with
      | Some s' => Some (Axis (<[i:=s']> items))
      | None => None
      end
    | None => None
    end
  end
end.

  (** All entries, in row-major order. *)
Fixpoint leaves (t : ndarray A) : list A :=
match t with
| Scalar a => [a]
| Axis items => concat (List.map leaves items)
end.

  (** [t[lo:hi, ...] = value], the slice on the first axis only, for a
  [value] with [hi - lo] rows. *)
Definition set_rows (t : ndarray A) (lo hi : nat) (value : ndarray A)
: option (ndarray A) :=
match t, value with
| Axis items, Axis rows =>
  if decide (length rows = hi - lo /\ hi <= length items)
  then Some (Axis (take lo items ++ rows ++ drop hi items))
  else None
| _, _ => None
end.

End Nd.
End Nd.

(** ** Strings *)

Definition is_space (c : ascii) : bool :=
  match Ascii.nat_of_ascii c with
  | 32 | 9 | 10 | 11 | 12 | 13 => true
  | _ => false
  end.

(** [s.split()]: the maximal runs of non-whitespace characters. *)
Fixpoint split_ws_go (cur : list ascii) (s : list ascii) : list (list ascii) :=
  match s with
  | [] => match cur with [] => [] | _ => [rev cur] end
  | c :: s' =>
    if is_space c
    then match cur with
         | [] => split_ws_go [] s'
         | _ => rev cur :: split_ws_go [] s'
         end
    else split_ws_go (c :: cur) s'
  end.

Definition split_ws (s : string) : list (list ascii) :=
  split_ws_go [] (list_ascii_of_string s).

(** [int(c)] on a one-character string; [None] is ValueError. *)
Definition int_of_char (c : ascii) : option nat :=
  let n := Ascii.nat_of_ascii c in
  if decide (48 <= n <= 57) then Some (n - 48) else None.

(** ** Tensors and Einstein summation *)

(** A tensor as seen by [einsum]: its shape and its entry at an index
    tuple.  Entries outside the shape are never read. *)
Record tensor (A : Type) : Type := { dims : list nat; entry : list nat -> A }.
Arguments dims {A} t.
Arguments entry {A} t idx.

(** One axis of a basic slice [lo:hi]; a missing bound is [None]. *)
Definition slice : Type := option nat * option nat.
Definition upto (hi : nat) : slice := (None, Some hi).
Definition from (lo : nat) : slice := (Some lo, None).
Definition whole : slice := (None, None).
Definition between (lo hi : nat) : slice := (Some lo, Some hi).

Module Tensor.
Section Tensor.
Context {A : Type} `{Num A}.

Fixpoint array_shape (t : ndarray A) : list nat :=
match t with
| Scalar _ => []
| Axis items =>
  length items :: match items with
                  | [] => []
                  | x :: _ => array_shape x
                  end
end.

  (** A numpy array read as a tensor. *)
Definition of_array (t : ndarray A) : tensor A :=
{| dims := array_shape t;
   entry idx := match Nd.get t idx with Some a => a | None => num0 end |}.

Definition zeros (shape : list nat) : tensor A :=
{| dims := shape; entry _ := num0 |}.

  (** [numpy.eye(n)] *)
Definition eye (n : nat) : tensor A :=
{| dims := [n; n];
   entry idx := match idx with
                | [i; j] => if decide (i = j) then num1 else num0
                | _ => num0
                end |}.

Definition map {B} (f : A -> B) (t : tensor A) : tensor B :=
{| dims := dims t; entry idx := f (entry t idx) |}.

  (** Elementwise combination of two tensors of one shape. *)
Definition pointwise (f : A -> A -> A) (t u : tensor A) : tensor A :=
{| dims := dims t; entry idx := f (entry t idx) (entry u idx) |}.

Definition add : tensor A -> tensor A -> tensor A := pointwise nadd.

  (** The scalar held by a 0-dimensional tensor. *)
Definition item (t : tensor A) : A := entry t [].

  (** Bounds of a slice on an axis of length [d], clamped as Python does. *)
Definition slice_lo (d : nat) (s : slice) : nat :=
match fst s with Some lo => lo `min` d | None => 0 end.
Definition slice_hi (d : nat) (s : slice) : nat :=
match snd s with Some hi => hi `min` d | None => d end.

Definition slice_los (shape : list nat) (ss : list slice) : list nat :=
zip_with slice_lo shape ss.
Definition slice_his (shape : list nat) (ss : list slice) : list nat :=
zip_with slice_hi shape ss.

  (** [t[s0, s1, ...]] with one basic slice per axis. *)
Definition get_slice (t : tensor A) (ss : list slice) : tensor A :=
let los := slice_los (dims t) ss in
let his := slice_his (dims t) ss in
{| dims := zip_with Nat.sub his los;
   entry idx := entry t (zip_with Nat.add los idx) |}.

Fixpoint inside (los his idx : list nat) : bool :=
match los, his, idx with
| [], [], [] => true
| lo :: los', hi :: his', i :: idx' =>
  bool_decide (lo <= i < hi) && inside los' his' idx'
| _, _, _ => false
end.

  (** [t[s0, s1, ...] = value]: entries inside the slice are replaced by
  those of [value], all others are kept. *)
Definition set_slice (t : tensor A) (ss : list slice) (value : tensor A)
: tensor A :=
let los := slice_los (dims t) ss in
let his := slice_his (dims t) ss in
{| dims := dims t;
   entry idx := if inside los his idx
                then entry value (zip_with Nat.sub idx los)
                else entry t idx |}.

  (** [tf.trace]: sum over the diagonal of the last two axes. *)
Definition trace (t : tensor A) : tensor A :=
let r := length (dims t) - 2 in
let d := match drop r (dims t) with
         | [d1; d2] => d1 `min` d2
         | _ => 0
         end in
{| dims := take r (dims t);
   entry idx := sum_range d (fun m => entry t (idx ++ [m; m])) |}.

  (** *** [einsum] *)

  (** Values of index letters. *)
Definition env : Type := list (ascii * nat).

Fixpoint lookup (c : ascii) (e : env) : nat :=
match e with
| [] => 0
| (c', v) :: e' => if Ascii.eqb c c' then v else lookup c e'
end.

Fixpoint mem (c : ascii) (l : list ascii) : bool :=
match l with
| [] => false
| c' :: l' => Ascii.eqb c c' || mem c l'
end.

Fixpoint dedupe (seen : list ascii) (l : list ascii) : list ascii :=
match l with
| [] => []
| c :: l' => if mem c seen then dedupe seen l' else c :: dedupe (c :: seen) l'
end.

  (** The subscripts before ["->"] and the output subscripts after it. *)
Fixpoint break_arrow (s : list ascii) : list ascii * list ascii :=
match s with
| [] => ([], [])
| c :: s' =>
  match Ascii.eqb c "-", s' with
  | true, _ :: out => ([], out)
  | _, _ => let '(l, out) := break_arrow s' in (c :: l, out)
  end
end.

Fixpoint split_commas (cur : list ascii) (s : list ascii) : list (list ascii) :=
match s with
| [] => [rev cur]
| c :: s' =>
  if Ascii.eqb c "," then rev cur :: split_commas [] s'
  else split_commas (c :: cur) s'
end.

Definition parse (spec : string) : list (list ascii) * list ascii :=
let '(lhs, out) := break_arrow (list_ascii_of_string spec) in
(split_commas [] lhs, out).

  (** Sum of [body] over every assignment of the letters [ls], each over
  its axis length. *)
Fixpoint sum_over (ls : env) (e : env) (body : env -> A) : A :=
match ls with
| [] => body e
| (c, d) :: ls' => sum_range d (fun x => sum_over ls' ((c, x) :: e) body)
end.

Fixpoint product (l : list A) : A :=
match l with
| [] => num1
| [a] => a
| a :: l' => nmul a (product l')
end.

Definition operand_entry (e : env) (op : list ascii * tensor A) : A :=
entry (snd op) (List.map (fun c => lookup c e) (fst op)).

  (** [einsum(spec, *ops)] in explicit mode: the entry at an output index
  is the sum, over the letters absent from the output, of the product
  of the operands' entries. *)
Definition einsum (spec : string) (ops : list (tensor A)) : tensor A :=
let '(ins, out) := parse spec in
let operands := combine ins ops in
let sizes : env := op ← operands; combine (fst op) (dims (snd op)) in
let summed := dedupe out (concat ins) in
{| dims := List.map (fun c => lookup c sizes) out;
   entry idx :=
     sum_over (List.map (fun c => (c, lookup c sizes)) summed) (combine out idx)
       (fun e => product (List.map (operand_entry e) operands)) |}.

End Tensor.
End Tensor.

(** ** itertools *)

Module Itertools.
Section Itertools.
Context {X : Type}.

  (** [itertools.combinations(l, r)], in lexicographic order of positions. *)
Fixpoint combinations (r : nat) (l : list X) {struct l} : list (list X) :=
match r, l with
| O, _ => [[]]
| S _, [] => []
| S r', x :: l' => List.map (cons x) (combinations r' l') ++ combinations r l'
end.

  (** Every way to pick one element, with the elements left over. *)
Fixpoint selections (l : list X) : list (X * list X) :=
match l with
| [] => []
| x :: l' => (x, l') :: List.map (fun '(y, rest) => (y, x :: rest)) (selections l')
end.

Fixpoint permutations_of_length (n : nat) (l : list X) : list (list X) :=
match n with
| O => [[]]
| S n' =>
  '(x, rest) ← selections l; List.map (cons x) (permutations_of_length n' rest)
end.

  (** [itertools.permutations(l)], in lexicographic order of positions. *)
Definition permutations (l : list X) : list (list X) :=
permutations_of_length (length l) l.

End Itertools.
End Itertools.

(** ** Spin(8) *)

Module Spin8.

Definition entries : string :=
  ("007+ 016- 025- 034+ 043- 052+ 061+ 070- " ++
   "101+ 110- 123- 132+ 145+ 154- 167- 176+ " ++
   "204+ 215- 226+ 237- 240- 251+ 262- 273+ " ++
   "302+ 313+ 320- 331- 346- 357- 364+ 375+ " ++
   "403+ 412- 421+ 430- 447+ 456- 465+ 474- " ++
   "505+ 514+ 527+ 536+ 541- 550- 563- 572- " ++
   "606+ 617+ 624- 635- 642+ 653+ 660- 671- " ++
   "700+ 711+ 722+ 733+ 744+ 755+ 766+ 777+")%string.

(** One iteration of [for ijkc in entries.split()]:
    [ijk = tuple(map(int, ijkc[:-1]))] and
    [ret[ijk] = +1 if ijkc[-1] == '+' else -1]. *)
Definition store_entry (ret : ndarray Q) (ijkc : list ascii)
  : outcome (ndarray Q) :=
  ijk ← or_raise (mapM int_of_char (removelast ijkc));
  last_char ← or_raise (last ijkc);
  let v := if Ascii.eqb last_char "+"%char then 1%Q else (-1)%Q in
  or_raise (Nd.set ret ijk v).

(** [_get_gamma_vsc] *)
Definition _get_gamma_vsc : outcome (ndarray Q) :=
  let ret := Nd.zeros 0%Q [8; 8; 8] in
  for_each store_entry (split_ws entries) ret.

Definition gamma_vsc_array : ndarray Q :=
  match _get_gamma_vsc with
  | Returns t => t
  | _ => Nd.zeros 0%Q [8; 8; 8]
  end.

Record spin8 : Type := {
  gamma_vsc : tensor Q;
  gamma_vvss : tensor Q;
  gamma_vvcc : tensor Q;
  gamma_vvvvss : tensor Q;
  gamma_vvvvcc : tensor Q
}.

Definition scale (x : Q) (t : tensor Q) : tensor Q := Tensor.map (Qmult x) t.
Definition sub (t u : tensor Q) : tensor Q := Tensor.pointwise Qminus t u.

(** One iteration of [for perm in itertools.permutations(range(4))],
    on the pair [(gamma_vvvvss, gamma_vvvvcc)] of accumulators. *)
Definition add_permuted (g_ijklsS g_ijklcC : tensor Q)
    (acc : tensor Q * tensor Q) (perm : list nat) : outcome (tensor Q * tensor Q) :=
  let '(gamma_vvvvss, gamma_vvvvcc) := acc in
  letters ← or_raise (mapM (fun p => list_ascii_of_string "ijkl" !! p) perm);
  let perm_ijkl := string_of_list_ascii letters in
  sign ← permutation_sign (as_ints perm);
  let gamma_vvvvss :=
    Tensor.add gamma_vvvvss
      (scale (inject_Z sign)
         (Tensor.einsum (perm_ijkl ++ "sS->ijklsS") [g_ijklsS])) in
  let gamma_vvvvcc :=
    Tensor.add gamma_vvvvcc
      (scale (inject_Z sign)
         (Tensor.einsum (perm_ijkl ++ "cC->ijklcC") [g_ijklcC])) in
  Returns (gamma_vvvvss, gamma_vvvvcc).

(** [Spin8.__init__] *)
Definition __init__ : outcome spin8 :=
  gamma_vsc_nd ← _get_gamma_vsc;
  let gamma_vsc := Tensor.of_array gamma_vsc_nd in
  let gamma_vvss :=
    scale 0.5
      (sub (Tensor.einsum "isc,jSc->ijsS" [gamma_vsc; gamma_vsc])
           (Tensor.einsum "jsc,iSc->ijsS" [gamma_vsc; gamma_vsc])) in
  let gamma_vvcc :=
    scale 0.5
      (sub (Tensor.einsum "isc,jsC->ijcC" [gamma_vsc; gamma_vsc])
           (Tensor.einsum "jsc,isC->ijcC" [gamma_vsc; gamma_vsc])) in
  let g_ijsS := Tensor.einsum "isc,jSc->ijsS" [gamma_vsc; gamma_vsc] in
  let g_ijcC := Tensor.einsum "isc,jsC->ijcC" [gamma_vsc; gamma_vsc] in
  let g_ijklsS := Tensor.einsum "ijst,kltS->ijklsS" [g_ijsS; g_ijsS] in
  let g_ijklcC := Tensor.einsum "ijcd,kldC->ijklcC" [g_ijcC; g_ijcC] in
  let gamma_vvvvss := Tensor.zeros [8; 8; 8; 8; 8; 8] in
  let gamma_vvvvcc := Tensor.zeros [8; 8; 8; 8; 8; 8] in
  '(gamma_vvvvss, gamma_vvvvcc) ←
    for_each (add_permuted g_ijklsS g_ijklcC)
      (Itertools.permutations (seq 0 4)) (gamma_vvvvss, gamma_vvvvcc);
  Returns {| gamma_vsc := gamma_vsc;
             gamma_vvss := gamma_vvss;
             gamma_vvcc := gamma_vvcc;
             gamma_vvvvss := Tensor.map (fun x => x / 24.0)%Q gamma_vvvvss;
             gamma_vvvvcc := Tensor.map (fun x => x / 24.0)%Q gamma_vvvvcc |}.

Definition zero_spin8 : spin8 :=
  {| gamma_vsc := Tensor.zeros [8; 8; 8];
     gamma_vvss := Tensor.zeros [8; 8; 8; 8];
     gamma_vvcc := Tensor.zeros [8; 8; 8; 8];
     gamma_vvvvss := Tensor.zeros [8; 8; 8; 8; 8; 8];
     gamma_vvvvcc := Tensor.zeros [8; 8; 8; 8; 8; 8] |}.

(** The module-level instance [spin8 = Spin8()]. *)
Definition instance : spin8 :=
  match __init__ with
  | Returns s => s
  | _ => zero_spin8
  end.

End Spin8.

(** ** SU(8) *)

Module SU8.

(** [[(i, j) for i in range(8) for j in range(8) if i < j]] *)
Definition ij_map : list (nat * nat) :=
  i ← seq 0 8; j ← seq 0 8; if decide (i < j) then [(i, j)] else [].

Definition one : C := RtoC 1.
Definition minus_one : C := RtoC (-1).

(** One iteration of [for n in range(7)]. *)
Definition store_cartan (m35 : ndarray C) (n : nat) : outcome (ndarray C) :=
  m35 ← or_raise (Nd.set m35 [n; n; n] one);
  or_raise (Nd.set m35 [n; n + 1; n + 1] minus_one).

(** One iteration of [for a, (m, n) in enumerate(ij_map)], on the pair
    of arrays [(m_35_8_8, m_28_8_8)]; the chained assignment stores into
    its targets from left to right. *)
Definition store_pair (ms : ndarray C * ndarray C) (amn : nat * (nat * nat))
  : outcome (ndarray C * ndarray C) :=
  let '(m35, m28) := ms in
  let '(a, (m, n)) := amn in
  m35 ← or_raise (Nd.set m35 [a + 7; m; n] one);
  m35 ← or_raise (Nd.set m35 [a + 7; n; m] one);
  m28 ← or_raise (Nd.set m28 [a; m; n] one);
  m28 ← or_raise (Nd.set m28 [a; n; m] minus_one);
  Returns (m35, m28).

(** One iteration of [for a, (i, j) in enumerate(ij_map)] on [t_aij]. *)
Definition store_antisymmetric (t : ndarray C) (aij : nat * (nat * nat))
  : outcome (ndarray C) :=
  let '(a, (i, j)) := aij in
  t ← or_raise (Nd.set t [a + 35; i; j] minus_one);
  or_raise (Nd.set t [a + 35; j; i] one).

Definition enumerate {X} (l : list X) : list (nat * X) :=
  combine (seq 0 (length l)) l.

Record su8 : Type := {
  m_35_8_8 : ndarray C;
  m_28_8_8 : ndarray C;
  t_aij : ndarray C
}.

(** [SU8.__init__] *)
Definition __init__ : outcome su8 :=
  let m35 := Nd.zeros (RtoC 0) [35; 8; 8] in
  let m28 := Nd.zeros (RtoC 0) [28; 8; 8] in
  m35 ← for_each store_cartan (seq 0 7) m35;
  '(m35, m28) ← for_each store_pair (enumerate ij_map) (m35, m28);
  let t := Nd.zeros (RtoC 0) [63; 8; 8] in
  t ← or_raise (Nd.set_rows t 0 35 (Nd.map_leaves (Cmul Ci) m35));
  t ← for_each store_antisymmetric (enumerate ij_map) t;
  Returns {| m_35_8_8 := m35; m_28_8_8 := m28; t_aij := t |}.

Definition zero_su8 : su8 :=
  {| m_35_8_8 := Nd.zeros (RtoC 0) [35; 8; 8];
     m_28_8_8 := Nd.zeros (RtoC 0) [28; 8; 8];
     t_aij := Nd.zeros (RtoC 0) [63; 8; 8] |}.

(** The module-level instance [su8 = SU8()]. *)
Definition instance : su8 :=
  match __init__ with
  | Returns s => s
  | _ => zero_su8
  end.

End SU8.

(** ** The (anti)self-dual projector *)

Module SelfDual.

(** The local function [get_selfdual]. *)
Definition get_selfdual (sign_selfdual : Z) (ijkl : list nat)
  : outcome (Z * list nat * list nat) :=
  let mnpq := List.filter (fun n => negb (bool_decide (n ∈ ijkl))) (seq 0 8) in
  s ← permutation_sign (as_ints (ijkl ++ mnpq));
  Returns ((sign_selfdual * s)%Z, ijkl, mnpq).

(** The [selfduals] list comprehension. *)
Definition selfduals (sign_selfdual : Z)
  : outcome (list (Z * list nat * list nat)) :=
  map_outcome (get_selfdual sign_selfdual)
    (List.filter (fun ijkl => bool_decide (0 ∈ ijkl))
       (Itertools.combinations 4 (seq 0 8))).

(** [t[abcd[k]]] *)
Definition pick (t abcd : list nat) (k : nat) : option nat :=
  match abcd !! k with
  | Some a => t !! a
  | None => None
  end.

(** The index tuple [num_sd, t[abcd[0]], t[abcd[1]], t[abcd[2]], t[abcd[3]]]. *)
Definition permuted_index (num_sd : nat) (t abcd : list nat) : option (list nat) :=
  i0 ← pick t abcd 0; i1 ← pick t abcd 1; i2 ← pick t abcd 2; i3 ← pick t abcd 3;
  Some [num_sd; i0; i1; i2; i3].

(** One iteration of [for abcd in itertools.permutations(range(4))]. *)
Definition store_permuted (num_sd : nat) (sign_sd : Z) (ijkl mnpq : list nat)
    (ret : ndarray Q) (abcd : list nat) : outcome (ndarray Q) :=
  sign_abcd ← permutation_sign (as_ints abcd);
  idx ← or_raise (permuted_index num_sd ijkl abcd);
  ret ← or_raise (Nd.set ret idx (inject_Z sign_abcd));
  idx ← or_raise (permuted_index num_sd mnpq abcd);
  or_raise (Nd.set ret idx (inject_Z (sign_abcd * sign_sd))).

(** One iteration of [for num_sd, (sign_sd, ijkl, mnpq) in enumerate(selfduals)]. *)
Definition store_selfdual (ret : ndarray Q) (entry : nat * (Z * list nat * list nat))
  : outcome (ndarray Q) :=
  let '(num_sd, (sign_sd, ijkl, mnpq)) := entry in
  for_each (store_permuted num_sd sign_sd ijkl mnpq)
    (Itertools.permutations (seq 0 4)) ret.

(** [get_proj_35_8888(want_selfdual)] *)
Definition get_proj_35_8888 (want_selfdual : bool) : outcome (ndarray Q) :=
  let sign_selfdual := if want_selfdual then 1%Z else (-1)%Z in
  let ret := Nd.zeros 0%Q [35; 8; 8; 8; 8] in
  sds ← selfduals sign_selfdual;
  ret ← for_each store_selfdual (SU8.enumerate sds) ret;
  Returns (Nd.map_leaves (fun x => x / 24)%Q ret).

End SelfDual.

(** ** E7 *)

Module E7.

Definition scale (x : Q) (t : tensor C) : tensor C := Tensor.map (Cscale x) t.
Definition times (c : C) (t : tensor C) : tensor C := Tensor.map (Cmul c) t.
Definition conjugate (t : tensor C) : tensor C := Tensor.map Cconj t.

(** A float64 array used where complex128 operands are: numpy promotes it. *)
Definition promote (t : tensor Q) : tensor C := Tensor.map RtoC t.

(** Division of a complex scalar by a float, as in [1.0j / 8.0]. *)
Definition Cdiv_real (c : C) (x : Q) : C := mkC (re c / x) (im c / x).

(** The body of [for a in range(35)] in [E7.__init__]; the slice
    assignments happen in source order. *)
Definition loop_body (spin8 : Spin8.spin8) (su8 : SU8.su8)
    (t_a_ij_kl : tensor C) (a : nat) : tensor C :=
  let gamma_vvvvss := promote (Spin8.gamma_vvvvss spin8) in
  let gamma_vvvvcc := promote (Spin8.gamma_vvvvcc spin8) in
  let m_35_8_8 := Tensor.of_array (SU8.m_35_8_8 su8) in
  let m_28_8_8 := Tensor.of_array (SU8.m_28_8_8 su8) in
  let t_aij := Tensor.of_array (SU8.t_aij su8) in
  let t_a_ij_kl :=
    Tensor.set_slice t_a_ij_kl [upto 35; from 28; upto 28]
      (scale (1 / 8.0)
         (Tensor.einsum "qIkl,Kkl->qIK"
            [Tensor.einsum "ijklq,Iij->qIkl"
               [Tensor.einsum "ijklsS,qsS->ijklq" [gamma_vvvvss; m_35_8_8];
                m_28_8_8];
             m_28_8_8])) in
  let t_a_ij_kl :=
    Tensor.set_slice t_a_ij_kl [upto 35; upto 28; from 28]
      (scale (1 / 8.0)
         (Tensor.einsum "qIkl,Kkl->qIK"
            [Tensor.einsum "ijklq,Iij->qIkl"
               [Tensor.einsum "ijklsS,qsS->ijklq" [gamma_vvvvss; m_35_8_8];
                m_28_8_8];
             m_28_8_8])) in
  let t_a_ij_kl :=
    Tensor.set_slice t_a_ij_kl [between 35 70; from 28; upto 28]
      (times (Cdiv_real Ci 8.0)
         (Tensor.einsum "qIkl,Kkl->qIK"
            [Tensor.einsum "ijklq,Iij->qIkl"
               [Tensor.einsum "ijklcC,qcC->ijklq" [gamma_vvvvcc; m_35_8_8];
                m_28_8_8];
             m_28_8_8])) in
  let t_a_ij_kl :=
    Tensor.set_slice t_a_ij_kl [between 35 70; upto 28; from 28]
      (times (Cdiv_real (Copp Ci) 8.0)
         (Tensor.einsum "qIkl,Kkl->qIK"
            [Tensor.einsum "ijklq,Iij->qIkl"
               [Tensor.einsum "ijklcC,qcC->ijklq" [gamma_vvvvcc; m_35_8_8];
                m_28_8_8];
             m_28_8_8])) in
  let su8_28 :=
    scale 2
      (Tensor.einsum "aIjn,Jjn->aIJ"
         [Tensor.einsum "aimjn,Iim->aIjn"
            [Tensor.einsum "aij,mn->aimjn" [t_aij; Tensor.eye 8];
             m_28_8_8];
          m_28_8_8]) in
  let t_a_ij_kl :=
    Tensor.set_slice t_a_ij_kl [from 70; upto 28; upto 28] su8_28 in
  let t_a_ij_kl :=
    Tensor.set_slice t_a_ij_kl [from 70; from 28; from 28] (conjugate su8_28) in
  t_a_ij_kl.

(** [E7.__init__]: the attribute [t_a_ij_kl] after the loop. *)
Definition __init__ (spin8 : Spin8.spin8) (su8 : SU8.su8) : tensor C :=
  let t_a_ij_kl := Tensor.zeros [133; 56; 56] in
  fold_left (loop_body spin8 su8) (seq 0 35) t_a_ij_kl.

(** The loop body executed exactly once. *)
Definition init_single_pass (spin8 : Spin8.spin8) (su8 : SU8.su8) : tensor C :=
  loop_body spin8 su8 (Tensor.zeros [133; 56; 56]) 0.

(** The module-level instance [e7 = E7(spin8, su8)]. *)
Definition t_a_ij_kl : tensor C := __init__ Spin8.instance SU8.instance.

End E7.

(** ** Supergravity *)

Module Sugra.

Definition real (t : tensor C) : tensor Q := Tensor.map re t.
Definition imag (t : tensor C) : tensor Q := Tensor.map im t.

(** [tf.complex(re, im)] *)
Definition complex (t_re t_im : tensor Q) : tensor C :=
  {| dims := dims t_re; entry idx := mkC (entry t_re idx) (entry t_im idx) |}.

(** [tf.constant([x] * n)] *)
Definition constant_vector (x : Q) (n : nat) : tensor Q :=
  {| dims := [n]; entry _ := x |}.

(** The constant projector, [tf.constant(get_proj_35_8888(want_selfdual))]. *)
Definition proj_35_8888 (want_selfdual : bool) : tensor Q :=
  match SelfDual.get_proj_35_8888 want_selfdual with
  | Returns t => Tensor.of_array t
  | _ => Tensor.zeros [35; 8; 8; 8; 8]
  end.

(** [tf_so8_sugra_stationarity(t_a1, t_a2)] *)
Definition tf_so8_sugra_stationarity (t_a1 t_a2 : tensor C) : tensor Q :=
  let t_x0 :=
    Tensor.pointwise Csub
      (E7.scale 4.0 (Tensor.einsum "mi,mjkl->ijkl" [t_a1; t_a2]))
      (E7.scale 3.0 (Tensor.einsum "mnij,nklm->ijkl" [t_a2; t_a2])) in
  let t_x0_real := real t_x0 in
  let t_x0_imag := imag t_x0 in
  let tc_sd := proj_35_8888 true in
  let tc_asd := proj_35_8888 false in
  let t_x_real_sd := Tensor.einsum "aijkl,ijkl->a" [tc_sd; t_x0_real] in
  let t_x_imag_asd := Tensor.einsum "aijkl,ijkl->a" [tc_asd; t_x0_imag] in
  Tensor.add
    (Tensor.einsum "a,a->" [t_x_real_sd; t_x_real_sd])
    (Tensor.einsum "a,a->" [t_x_imag_asd; t_x_imag_asd]).

(** The dict returned by [tf_so8_sugra_potential]. *)
Record potential_tensors : Type := {
  v70 : tensor Q;
  vielbein : tensor C;
  tee_tensor : tensor C;
  a1 : tensor C;
  a2 : tensor C;
  potential : tensor Q
}.

Section Potential.

(** The matrix exponential is an external primitive: [expm n M] is the
    exponential of the [n] by [n] matrix with entries [M i j]. *)
Variable expm : nat -> (nat -> nat -> C) -> nat -> nat -> C.

(** [tf.linalg.expm] *)
Definition tf_linalg_expm (t : tensor C) : tensor C :=
  {| dims := dims t;
     entry idx :=
       match dims t, idx with
       | [n; _], [i; j] => expm n (fun a b => entry t [a; b]) i j
       | _, _ => num0
       end |}.

(** The local function [expand_ijkl]. *)
Definition expand_ijkl (tc_28_8_8 t_ab : tensor C) : tensor C :=
  E7.scale 0.5
    (Tensor.einsum "ijB,BIJ->ijIJ"
       [Tensor.einsum "AB,Aij->ijB" [t_ab; tc_28_8_8];
        tc_28_8_8]).

(** The combination of generators that is exponentiated. *)
Definition e7_generator_v70 (t_v70 : tensor Q) : tensor C :=
  Tensor.einsum "v,vIJ->JI"
    [complex t_v70 (constant_vector 0.0 70);
     Tensor.get_slice E7.t_a_ij_kl [upto 70; whole; whole]].

(** [tf_so8_sugra_potential(t_v70)] *)
Definition tf_so8_sugra_potential (t_v70 : tensor Q) : potential_tensors :=
  let tc_28_8_8 := Tensor.of_array (SU8.m_28_8_8 SU8.instance) in
  let t_e7_generator_v70 := e7_generator_v70 t_v70 in
  let t_complex_vielbein := tf_linalg_expm t_e7_generator_v70 in
  let t_u_ijIJ :=
    expand_ijkl tc_28_8_8 (Tensor.get_slice t_complex_vielbein [upto 28; upto 28]) in
  let t_u_klKL :=
    expand_ijkl tc_28_8_8 (Tensor.get_slice t_complex_vielbein [from 28; from 28]) in
  let t_v_ijKL :=
    expand_ijkl tc_28_8_8 (Tensor.get_slice t_complex_vielbein [upto 28; from 28]) in
  let t_v_klIJ :=
    expand_ijkl tc_28_8_8 (Tensor.get_slice t_complex_vielbein [from 28; upto 28]) in
  let t_uv := Tensor.add t_u_klKL t_v_klIJ in
  let t_uuvv :=
    Tensor.pointwise Csub
      (Tensor.einsum "lmJK,kmKI->lkIJ" [t_u_ijIJ; t_u_klKL])
      (Tensor.einsum "lmJK,kmKI->lkIJ" [t_v_ijKL; t_v_klIJ]) in
  let t_T := Tensor.einsum "ijIJ,lkIJ->lkij" [t_uv; t_uuvv] in
  let t_A1 :=
    E7.scale (-4.0 / 21.0) (Tensor.trace (Tensor.einsum "mijn->ijmn" [t_T])) in
  let t_A2 :=
    E7.scale (-4.0 / (3 * 3))
      (Tensor.add
         (Tensor.add t_T (Tensor.einsum "lijk->ljki" [t_T]))
         (Tensor.einsum "lijk->lkij" [t_T])) in
  let t_A1_real := real t_A1 in
  let t_A1_imag := imag t_A1 in
  let t_A2_real := real t_A2 in
  let t_A2_imag := imag t_A2 in
  let t_A1_potential :=
    Spin8.scale (-3.0 / 4)
      (Tensor.add
         (Tensor.einsum "ij,ij->" [t_A1_real; t_A1_real])
         (Tensor.einsum "ij,ij->" [t_A1_imag; t_A1_imag])) in
  let t_A2_potential :=
    Spin8.scale (1.0 / 24)
      (Tensor.add
         (Tensor.einsum "ijkl,ijkl->" [t_A2_real; t_A2_real])
         (Tensor.einsum "ijkl,ijkl->" [t_A2_imag; t_A2_imag])) in
  let t_potential := Tensor.add t_A1_potential t_A2_potential in
  {| v70 := t_v70;
     vielbein := t_complex_vielbein;
     tee_tensor := t_T;
     a1 := t_A1;
     a2 := t_A2;
     potential := t_potential |}.

End Potential.

End Sugra.

(** ** The scan driver *)

(** A float64 value as the driver sees it: finite, infinite or NaN. *)
Inductive float : Type :=
| Finite (x : Q)
| PosInf
| NegInf
| NaN.

Definition Qltb (x y : Q) : bool :=
  (Qnum x * QDen y <? Qnum y * QDen x)%Z.

(** IEEE [a < b]: false whenever an operand is NaN. *)
Definition float_lt (a b : float) : bool :=
  match a, b with
  | NaN, _ | _, NaN => false
  | Finite x, Finite y => Qltb x y
  | Finite _, PosInf => true
  | Finite _, NegInf => false
  | PosInf, _ => false
  | NegInf, NegInf => false
  | NegInf, _ => true
  end.

Definition is_finite (a : float) : bool :=
  match a with
  | Finite _ => true
  | _ => false
  end.

(** The double nearest to [1e-3]. *)
Definition threshold : float := Finite (1152921504606847 # 1152921504606846976).

Definition restart_scale : float := Finite 2.0.

(** What a scanner returns: [(potential, stationarity, v70)]. *)
Record scanned : Type := {
  scanned_potential : float;
  scanned_stationarity : float;
  scanned_v70 : list float
}.

(** A scanner is called with a seed and a scale, and may raise. *)
Definition scanner_type : Type := Z -> float -> outcome scanned.

Definition accepted (s : scanned) : bool :=
  float_lt (scanned_stationarity s) threshold.

(** State of [scan_many]: the list [ret], the counter [seed], and the log
    of the scanner calls made so far, as [(seed, scale)] pairs. *)
Record scan_state : Type := {
  ret : list scanned;
  seed : Z;
  calls : list (Z * float)
}.

(** The [while len(ret) < num_to_produce] loop; [fuel] bounds its
    iterations. *)
Fixpoint scan_loop (fuel : nat) (scanner : scanner_type) (num_to_produce : Z)
    (st : scan_state) : outcome scan_state :=
  match fuel with
  | O => Diverges
  | S fuel' =>
    if decide (Z.of_nat (length (ret st)) < num_to_produce)%Z then
      let seed := (seed st + 1)%Z in
      let calls := calls st ++ [(seed, restart_scale)] in
      scanned ← scanner seed restart_scale;
      if float_lt (scanned_stationarity scanned) threshold
      then scan_loop fuel' scanner num_to_produce
             {| ret := ret st ++ [scanned]; seed := seed; calls := calls |}
      else scan_loop fuel' scanner num_to_produce
             {| ret := ret st; seed := seed; calls := calls |}
    else Returns st
  end.

(** [scan_many(scanner, num_to_produce)]; the progress line printed on each
    acceptance is not modelled. *)
Definition scan_many (fuel : nat) (scanner : scanner_type) (num_to_produce : Z)
  : outcome scan_state :=
  scan_loop fuel scanner num_to_produce {| ret := []; seed := 0; calls := [] |}.

(** ** Formulas and checks the theorems are stated with *)

Definition nonzero (x : Q) : bool := negb (Qeq_bool x 0).

(** The cospinor entries of the pair [(v, s)]: [c] holds [+1] or [-1] and
    every other one holds [0]. *)
Definition single_entry_at (g : ndarray Q) (v s c : nat) : bool :=
  (bool_decide (Nd.get g [v; s; c] = Some 1%Q)
   || bool_decide (Nd.get g [v; s; c] = Some (-1)%Q))
  && forallb (fun c' => bool_decide (c' = c)
                        || bool_decide (Nd.get g [v; s; c'] = Some 0%Q)) (seq 0 8).

(** Entry [(b, r, c)] of [t_aij] is [1j] times that of [m_35_8_8]. *)
Definition symmetric_entry_ok (s : SU8.su8) (b r c : nat) : bool :=
  match Nd.get (SU8.m_35_8_8 s) [b; r; c] with
  | Some x => bool_decide (Nd.get (SU8.t_aij s) [b; r; c] = Some (Cmul Ci x))
  | None => false
  end.

(** Generator [35 + a] holds [-1] at the pair [(i, j)] of position [a],
    [+1] at [(j, i)] and [0] elsewhere. *)
Definition antisymmetric_ok (s : SU8.su8) (a : nat) : bool :=
  match SU8.ij_map !! a with
  | Some (i, j) =>
    bool_decide (Nd.get (SU8.t_aij s) [35 + a; i; j] = Some (RtoC (-1)))
    && bool_decide (Nd.get (SU8.t_aij s) [35 + a; j; i] = Some (RtoC 1))
    && forallb (fun k => forallb (fun l =>
         bool_decide ((k, l) = (i, j)) || bool_decide ((k, l) = (j, i))
         || bool_decide (Nd.get (SU8.t_aij s) [35 + a; k; l] = Some (RtoC 0)))
         (seq 0 8)) (seq 0 8)
  | None => false
  end.

(** The index tuple [i] with its positions rearranged by [sigma]:
    position [k] of the result holds [i[sigma[k]]]. *)
Definition permute_index (sigma : list nat) (i : list nat) : list nat :=
  List.map (fun p => nth p i 0) sigma.

(** The sign of a rearrangement of index positions, as a float. *)
Definition sign_of (sigma : list nat) : Q := inject_Z (parity_sign (as_ints sigma)).

(** Exchange of the entries at positions [k] and [k + 1]. *)
Fixpoint adj_swap {X} (k : nat) (l : list X) : list X :=
  match k, l with
  | O, x :: y :: l' => y :: x :: l'
  | S k', x :: l' => x :: adj_swap k' l'
  | _, _ => l
  end.

Definition apply_swaps {X} (ks : list nat) (l : list X) : list X :=
  fold_left (fun l k => adj_swap k l) ks l.

(** Adjacent exchanges that sort [l], found by repeatedly exchanging the
    first descent. *)
Fixpoint first_descent (l : list nat) : option nat :=
  match l with
  | x :: (y :: _) as l' =>
    if decide (y < x) then Some 0 else S <$> first_descent l'
  | _ => None
  end.

Fixpoint sorting_swaps (fuel : nat) (l : list nat) : list nat :=
  match fuel with
  | O => []
  | S fuel' =>
    match first_descent l with
    | Some k => k :: sorting_swaps fuel' (adj_swap k l)
    | None => []
    end
  end.

(** Exchanges that turn the identity arrangement into [sigma]. *)
Definition swaps_of (sigma : list nat) : list nat := rev (sorting_swaps 6 sigma).

Definition below8 : list nat := seq 0 8.

(** Exchanging index positions [k] and [k + 1] negates the entry. *)
Definition swap_negates (row : ndarray Q) (k : nat) (i : list nat) : bool :=
  match Nd.get row (adj_swap k i), Nd.get row i with
  | Some x', Some x => Qeq_bool x' (- x)
  | _, _ => false
  end.

Definition antisymmetric_row (row : ndarray Q) : bool :=
  forallb (fun k =>
    forallb (fun i0 => forallb (fun i1 => forallb (fun i2 => forallb (fun i3 =>
      swap_negates row k [i0; i1; i2; i3])
      below8) below8) below8) below8)
    (seq 0 3).

Definition projector_checked (want_selfdual : bool) : bool :=
  match SelfDual.get_proj_35_8888 want_selfdual with
  | Returns (Axis rows) => bool_decide (length rows = 35) && forallb antisymmetric_row rows
  | _ => false
  end.

Definition all_below (n : nat) (i : list nat) : Prop := Forall (fun x => x < n) i.

Fixpoint alternating (n : nat) : Q :=
  match n with
  | O => 1
  | S n' => - alternating n'
  end.

(** The 24 arrangements of four positions. *)
Definition arrangements : list (list nat) := Itertools.permutations (seq 0 4).

Definition arrangement_ok (sigma : list nat) : bool :=
  bool_decide (apply_swaps (swaps_of sigma) [0; 1; 2; 3] = sigma)
  && forallb (fun k => bool_decide (k < 3)) (swaps_of sigma)
  && Qeq_bool (alternating (length (swaps_of sigma))) (sign_of sigma).

(** Two tensors with the same shape and the same entries. *)
Definition same_tensor {A} (t u : tensor A) : Prop :=
  dims t = dims u /\ forall idx, entry t idx = entry u idx.

(** A sequence of slice assignments [t[ss] = value], first one first. *)
Definition assign_all {A} (assignments : list (list slice * tensor A)) (t : tensor A)
  : tensor A :=
  fold_left (fun t sv => Tensor.set_slice t (fst sv) (snd sv)) assignments t.

(** The value the last assignment covering [idx] stores there, if any. *)
Fixpoint stored {A} (shape : list nat) (assignments : list (list slice * tensor A))
    (idx : list nat) (acc : option A) : option A :=
  match assignments with
  | [] => acc
  | (ss, value) :: rest =>
    let los := Tensor.slice_los shape ss in
    let his := Tensor.slice_his shape ss in
    stored shape rest idx
      (if Tensor.inside los his idx
       then Some (entry value (zip_with Nat.sub idx los))
       else acc)
  end.

(** The six slice assignments of the loop body, in source order. *)
Definition body_assignments (spin8 : Spin8.spin8) (su8 : SU8.su8)
  : list (list slice * tensor C) :=
  let gamma_vvvvss := E7.promote (Spin8.gamma_vvvvss spin8) in
  let gamma_vvvvcc := E7.promote (Spin8.gamma_vvvvcc spin8) in
  let m_35_8_8 := Tensor.of_array (SU8.m_35_8_8 su8) in
  let m_28_8_8 := Tensor.of_array (SU8.m_28_8_8 su8) in
  let t_aij := Tensor.of_array (SU8.t_aij su8) in
  let selfdual :=
    Tensor.einsum "qIkl,Kkl->qIK"
      [Tensor.einsum "ijklq,Iij->qIkl"
         [Tensor.einsum "ijklsS,qsS->ijklq" [gamma_vvvvss; m_35_8_8]; m_28_8_8];
       m_28_8_8] in
  let antiselfdual :=
    Tensor.einsum "qIkl,Kkl->qIK"
      [Tensor.einsum "ijklq,Iij->qIkl"
         [Tensor.einsum "ijklcC,qcC->ijklq" [gamma_vvvvcc; m_35_8_8]; m_28_8_8];
       m_28_8_8] in
  let su8_28 :=
    E7.scale 2
      (Tensor.einsum "aIjn,Jjn->aIJ"
         [Tensor.einsum "aimjn,Iim->aIjn"
            [Tensor.einsum "aij,mn->aimjn" [t_aij; Tensor.eye 8]; m_28_8_8];
          m_28_8_8]) in
  [ ([upto 35; from 28; upto 28], E7.scale (1 / 8.0) selfdual);
    ([upto 35; upto 28; from 28], E7.scale (1 / 8.0) selfdual);
    ([between 35 70; from 28; upto 28], E7.times (E7.Cdiv_real Ci 8.0) antiselfdual);
    ([between 35 70; upto 28; from 28],
     E7.times (E7.Cdiv_real (Copp Ci) 8.0) antiselfdual);
    ([from 70; upto 28; upto 28], su8_28);
    ([from 70; from 28; from 28], E7.conjugate su8_28) ].

(** The scanner calls a run of [N] iterations makes after [seed0]. *)
Definition calls_after (seed0 : Z) (N : nat) : list (Z * float) :=
  List.map (fun k => (seed0 + 1 + Z.of_nat k, restart_scale)%Z) (seq 0 N).

(** The seeds [1, 2, ..., N]. *)
Definition seeds_upto (N : nat) : list Z :=
  List.map (fun k => (Z.of_nat k + 1)%Z) (seq 0 N).

(** A scanner that never converges on seed 1 and finds a critical point
    on every later seed. *)
Definition unconverged : scanned :=
  {| scanned_potential := Finite (-6);
     scanned_stationarity := Finite 3;
     scanned_v70 := [] |}.
Definition converged : scanned :=
  {| scanned_potential := Finite (-6);
     scanned_stationarity := Finite 0;
     scanned_v70 := [] |}.
Definition second_try : scanner_type :=
  fun s _ => Returns (if decide (s = 1%Z) then unconverged else converged).

(** A scanner whose first attempt ends with NaN stationarity. *)
Definition ill_conditioned : scanned :=
  {| scanned_potential := NaN; scanned_stationarity := NaN; scanned_v70 := [] |}.
Definition nan_then_converged : scanner_type :=
  fun s _ => Returns (if decide (s = 1%Z) then ill_conditioned else converged).

(** An attempt whose potential is NaN but whose stationarity is small,
    and one whose stationarity is -infinity. *)
Definition nan_potential : scanned :=
  {| scanned_potential := NaN; scanned_stationarity := Finite 0; scanned_v70 := [] |}.
Definition neginf_stationarity : scanned :=
  {| scanned_potential := Finite 0; scanned_stationarity := NegInf; scanned_v70 := [] |}.

(** The tensor [X0] of the stationarity condition, with the two
    coefficients as parameters. *)
Definition x0_formula (c4 c3 : Q) (A1 A2 : tensor C) (i j k l : nat) : C :=
  Csub
    (Cscale c4 (sum_range 8 (fun m =>
       Cmul (entry A1 [m; i]) (entry A2 [m; j; k; l]))))
    (Cscale c3 (sum_range 8 (fun m => sum_range 8 (fun n =>
       Cmul (entry A2 [m; n; i; j]) (entry A2 [n; k; l; m]))))).

(** Component [a] of the contraction of a projector with a real 4-index
    tensor over the projector's last four indices. *)
Definition project (P : tensor Q) (f : nat -> nat -> nat -> nat -> Q) (a : nat) : Q :=
  sum_range 8 (fun i => sum_range 8 (fun j => sum_range 8 (fun k => sum_range 8 (fun l =>
    (entry P [a; i; j; k; l] * f i j k l)%Q)))).

(** [s . s + t . t] for the two projected 35-vectors. *)
Definition stationarity_formula (c4 c3 : Q) (A1 A2 : tensor C) : Q :=
  (sum_range 35 (fun a =>
     project (Sugra.proj_35_8888 true)
       (fun i j k l => re (x0_formula c4 c3 A1 A2 i j k l)) a
     * project (Sugra.proj_35_8888 true)
         (fun i j k l => re (x0_formula c4 c3 A1 A2 i j k l)) a)
   + sum_range 35 (fun a =>
       project (Sugra.proj_35_8888 false)
         (fun i j k l => im (x0_formula c4 c3 A1 A2 i j k l)) a
       * project (Sugra.proj_35_8888 false)
           (fun i j k l => im (x0_formula c4 c3 A1 A2 i j k l)) a))%Q.

(** [A1] and [A2] as functions of the T-tensor, and the potential as a
    function of [A1] and [A2], as [tf_so8_sugra_potential] builds them. *)
Definition a1_of (t_T : tensor C) : tensor C :=
  E7.scale (-4.0 / 21.0) (Tensor.trace (Tensor.einsum "mijn->ijmn" [t_T])).

Definition a2_of (t_T : tensor C) : tensor C :=
  E7.scale (-4.0 / (3 * 3))
    (Tensor.add
       (Tensor.add t_T (Tensor.einsum "lijk->ljki" [t_T]))
       (Tensor.einsum "lijk->lkij" [t_T])).

Definition potential_of (t_A1 t_A2 : tensor C) : tensor Q :=
  Tensor.add
    (Spin8.scale (-3.0 / 4)
       (Tensor.add
          (Tensor.einsum "ij,ij->" [Sugra.real t_A1; Sugra.real t_A1])
          (Tensor.einsum "ij,ij->" [Sugra.imag t_A1; Sugra.imag t_A1])))
    (Spin8.scale (1.0 / 24)
       (Tensor.add
          (Tensor.einsum "ijkl,ijkl->" [Sugra.real t_A2; Sugra.real t_A2])
          (Tensor.einsum "ijkl,ijkl->" [Sugra.imag t_A2; Sugra.imag t_A2]))).

(** Sum of the squared entries of an 8 x 8 and of an 8 x 8 x 8 x 8 array. *)
Definition sum_squares2 (f : nat -> nat -> Q) : Q :=
  sum_range 8 (fun i => sum_range 8 (fun j => (f i j * f i j)%Q)).

Definition sum_squares4 (f : nat -> nat -> nat -> nat -> Q) : Q :=
  sum_range 8 (fun i => sum_range 8 (fun j => sum_range 8 (fun k => sum_range 8 (fun l =>
    (f i j k l * f i j k l)%Q)))).

Definition potential_formula (t_A1 t_A2 : tensor C) : Q :=
  (- (3 # 4)
   * (sum_squares2 (fun i j => re (entry t_A1 [i; j]))
      + sum_squares2 (fun i j => im (entry t_A1 [i; j])))
   + (1 # 24)
     * (sum_squares4 (fun i j k l => re (entry t_A2 [i; j; k; l]))
        + sum_squares4 (fun i j k l => im (entry t_A2 [i; j; k; l]))))%Q.

Definition C0 : C := RtoC 0.

(** The coefficient array with [+1] at [p1], [-1] at [p2] and [0]
    elsewhere. *)
Definition two_point (p1 p2 : nat * nat) (i j : nat) : C :=
  if decide ((i, j) = p1) then RtoC 1
  else if decide ((i, j) = p2) then RtoC (-1)
  else RtoC 0.

(** The contraction of the anti-self-dual 4-form tensor with the 35- and
    28-bases that fills generators 35 .. 69. *)
Definition antiselfdual_block : tensor C :=
  Tensor.einsum "qIkl,Kkl->qIK"
    [Tensor.einsum "ijklq,Iij->qIkl"
       [Tensor.einsum "ijklcC,qcC->ijklq"
          [E7.promote (Spin8.gamma_vvvvcc Spin8.instance);
           Tensor.of_array (SU8.m_35_8_8 SU8.instance)];
        Tensor.of_array (SU8.m_28_8_8 SU8.instance)];
     Tensor.of_array (SU8.m_28_8_8 SU8.instance)].

(** The three nested contractions of a noncompact block, written out. *)
Definition contract_35 (G M35 : tensor C) (q i j k l : nat) : C :=
  sum_range 8 (fun c => sum_range 8 (fun c' =>
    Cmul (entry G [i; j; k; l; c; c']) (entry M35 [q; c; c']))).

Definition contract_28 (G M35 M28 : tensor C) (q I k l : nat) : C :=
  sum_range 8 (fun i => sum_range 8 (fun j =>
    Cmul (contract_35 G M35 q i j k l) (entry M28 [I; i; j]))).

Definition contract_28_28 (G M35 M28 : tensor C) (q I K : nat) : C :=
  sum_range 8 (fun k => sum_range 8 (fun l =>
    Cmul (contract_28 G M35 M28 q I k l) (entry M28 [K; k; l]))).

Definition G_cc : tensor C := E7.promote (Spin8.gamma_vvvvcc Spin8.instance).
Definition M_35 : tensor C := Tensor.of_array (SU8.m_35_8_8 SU8.instance).
Definition M_28 : tensor C := Tensor.of_array (SU8.m_28_8_8 SU8.instance).

(** Row [I] of a three-index basis has [+1] at [p1], [-1] at [p2] and [0]
    elsewhere. *)
Definition row_is_two_point (M : tensor C) (I : nat) (p1 p2 : nat * nat) : bool :=
  forallb (fun i => forallb (fun j =>
    bool_decide (entry M [I; i; j] = two_point p1 p2 i j)) (seq 0 8)) (seq 0 8).

(** The combination [sum_{k<70} v70[k] generator[k]] of the first 70
    generators, at row [I] and column [J]. *)
Definition generator_combination (t_v70 : tensor Q) (I J : nat) : C :=
  sum_range 70 (fun k =>
    Cmul (RtoC (entry t_v70 [k])) (entry E7.t_a_ij_kl [k; I; J])).

Definition identity_matrix (i j : nat) : C :=
  if decide (i = j) then RtoC 1 else C0.

(** What is assumed of the external matrix exponential: it maps equal
    matrices to equal matrices, and the zero matrix to the identity. *)
Definition expm_respects_equality
    (expm : nat -> (nat -> nat -> C) -> nat -> nat -> C) : Prop :=
  forall n M M',
    (forall a b, a < n -> b < n -> Ceq (M a b) (M' a b)) ->
    forall i j, i < n -> j < n -> Ceq (expm n M i j) (expm n M' i j).

Definition expm_of_zero_is_identity
    (expm : nat -> (nat -> nat -> C) -> nat -> nat -> C) : Prop :=
  forall n i j, i < n -> j < n ->
    Ceq (expm n (fun _ _ => C0) i j) (identity_matrix i j).

(** The exponential truncated after its linear term, [I + M]. *)
Definition first_order_expm (n : nat) (M : nat -> nat -> C) (i j : nat) : C :=
  Cadd (identity_matrix i j) (M i j).

Definition zero_70 : tensor Q := {| dims := [70]; entry _ := 0%Q |}.

(** The unit vector along generator 35. *)
Definition unit_35 : tensor Q :=
  {| dims := [70];
     entry idx := match idx with
                  | [k] => if decide (k = 35) then 1%Q else 0%Q
                  | _ => 0%Q
                  end |}.

(** * Theorems *)

(** ** Bounded quantifiers by enumeration *)

Lemma forallb_below (n : nat) (b : nat -> bool) :
  forallb b (seq 0 n) = true -> forall k, k < n -> b k = true.
Proof.
  intros Hall k Hk. rewrite forallb_forall in Hall.
  apply Hall, in_seq. lia.
Qed.

Lemma existsb_below (n : nat) (b : nat -> bool) :
  existsb b (seq 0 n) = true -> exists k, k < n /\ b k = true.
Proof.
  intros Hex. apply existsb_exists in Hex as (k & Hk%in_seq & Hb).
  exists k. split; [lia|done].
Qed.

(** ** The gamma table *)

Lemma gamma_vsc_single_entries :
  forallb (fun v => forallb (fun s =>
    existsb (single_entry_at Spin8.gamma_vsc_array v s) (seq 0 8)) (seq 0 8)) (seq 0 8)
  = true.
Proof. vm_compute. reflexivity. Qed.

(** C7: [_get_gamma_vsc] returns an 8 x 8 x 8 array in which every
    (vector, spinor) pair [(v, s)] has exactly one cospinor index [c] whose
    entry is [+1] or [-1], all its other entries being [0]; the array has
    exactly 64 nonzero entries, and every entry is [0], [+1] or [-1]. *)
Theorem gamma_vsc_one_signed_entry_per_pair (v s : nat) (Hv : v < 8) (Hs : s < 8) :
  Spin8._get_gamma_vsc = Returns Spin8.gamma_vsc_array
  /\ Tensor.array_shape Spin8.gamma_vsc_array = [8; 8; 8]
  /\ (exists c, c < 8
        /\ (Nd.get Spin8.gamma_vsc_array [v; s; c] = Some 1%Q
            \/ Nd.get Spin8.gamma_vsc_array [v; s; c] = Some (-1)%Q)
        /\ forall c', c' < 8 -> c' <> c ->
             Nd.get Spin8.gamma_vsc_array [v; s; c'] = Some 0%Q)
  /\ length (List.filter nonzero (Nd.leaves Spin8.gamma_vsc_array)) = 64
  /\ Forall (fun x => x = 0%Q \/ x = 1%Q \/ x = (-1)%Q)
       (Nd.leaves Spin8.gamma_vsc_array).
Proof.
  split; [reflexivity|]. split; [reflexivity|]. split; [|split].
  - pose proof (forallb_below 8 _ gamma_vsc_single_entries v Hv) as H1.
    pose proof (forallb_below 8 _ H1 s Hs) as H2. cbv beta in H2.
    apply existsb_below in H2 as (c & Hc & H3).
    unfold single_entry_at in H3. apply andb_prop in H3 as [Hpm Hzero].
    exists c. split; [exact Hc|]. split.
    + apply orb_prop in Hpm as [E|E]; apply bool_decide_eq_true in E; auto.
    + intros c' Hc' Hne.
      pose proof (forallb_below 8 _ Hzero c' Hc') as H4. cbv beta in H4.
      apply orb_prop in H4 as [E|E]; apply bool_decide_eq_true in E;
        [contradiction|exact E].
  - vm_compute. reflexivity.
  - apply Forall_forall. intros x Hx.
    assert (Hb : forallb (fun x => bool_decide (x = 0%Q \/ x = 1%Q \/ x = (-1)%Q))
                   (Nd.leaves Spin8.gamma_vsc_array) = true)
      by (vm_compute; reflexivity).
    rewrite forallb_forall in Hb. apply list_elem_of_In in Hx.
    apply Hb in Hx. now apply bool_decide_eq_true in Hx.
Qed.

Lemma gamma_vsc_one_signed_entry_per_pair_witness :
  exists c, c < 8
    /\ (Nd.get Spin8.gamma_vsc_array [0; 1; c] = Some 1%Q
        \/ Nd.get Spin8.gamma_vsc_array [0; 1; c] = Some (-1)%Q)
    /\ forall c', c' < 8 -> c' <> c ->
         Nd.get Spin8.gamma_vsc_array [0; 1; c'] = Some 0%Q.
Proof.
  apply (gamma_vsc_one_signed_entry_per_pair 0 1); lia.
Defined.

(** ** Parity of inversions under a swap *)

Section InversionParity.

Implicit Types (x y : Z) (l : list Z).

Lemma odd_below_app x l1 l2 :
  odd_below x (l1 ++ l2) = xorb (odd_below x l1) (odd_below x l2).
Proof.
  induction l1 as [|a l1 IH]; simpl.
  - now destruct (odd_below x l2).
  - rewrite IH. btauto.
Qed.

Lemma odd_cross_nil_r l : odd_cross l [] = false.
Proof. induction l as [|a l IH]; simpl; [done|now rewrite IH]. Qed.

Lemma odd_cross_cons_r l1 y l2 :
  odd_cross l1 (y :: l2) = xorb (odd_above y l1) (odd_cross l1 l2).
Proof.
  induction l1 as [|a l1 IH]; simpl; [done|].
  rewrite IH. btauto.
Qed.

Lemma odd_cross_app_r l1 l2 l3 :
  odd_cross l1 (l2 ++ l3) = xorb (odd_cross l1 l2) (odd_cross l1 l3).
Proof.
  induction l1 as [|a l1 IH]; simpl; [done|].
  rewrite IH, odd_below_app. btauto.
Qed.

Lemma odd_inversions_app l1 l2 :
  odd_inversions (l1 ++ l2)
  = xorb (xorb (odd_inversions l1) (odd_inversions l2)) (odd_cross l1 l2).
Proof.
  induction l1 as [|a l1 IH]; simpl.
  - now destruct (odd_inversions l2).
  - rewrite IH, odd_below_app. btauto.
Qed.

(** Among elements different from [x], each is either below or above. *)
Lemma odd_below_above x l :
  x ∉ l -> xorb (odd_below x l) (odd_above x l) = Nat.odd (length l).
Proof.
  induction l as [|a l IH]; intros Hx; [done|].
  apply not_elem_of_cons in Hx as [Hne Hx].
  cbn [odd_below odd_above length]. rewrite Nat.odd_succ, <- Nat.negb_odd, <- (IH Hx).
  destruct (Z.ltb_spec a x), (Z.ltb_spec x a); try lia; btauto.
Qed.

Lemma odd_inversions_swap_split l1 x l2 y l3 :
  x <> y -> x ∉ l2 -> y ∉ l2 ->
  odd_inversions (l1 ++ y :: l2 ++ x :: l3)
  = negb (odd_inversions (l1 ++ x :: l2 ++ y :: l3)).
Proof.
  intros Hxy Hx Hy.
  pose proof (odd_below_above x l2 Hx) as Ex.
  pose proof (odd_below_above y l2 Hy) as Ey.
  assert (Ex' : odd_below x l2 = xorb (Nat.odd (length l2)) (odd_above x l2))
    by (rewrite <- Ex; btauto).
  assert (Ey' : odd_below y l2 = xorb (Nat.odd (length l2)) (odd_above y l2))
    by (rewrite <- Ey; btauto).
  assert (Elt : (x <? y)%Z = negb (y <? x)%Z)
    by (destruct (Z.ltb_spec x y), (Z.ltb_spec y x); simpl; lia || done).
  rewrite !odd_inversions_app. cbn [odd_inversions].
  rewrite !odd_inversions_app. cbn [odd_inversions].
  rewrite !odd_cross_cons_r, !odd_cross_app_r, !odd_cross_cons_r.
  rewrite !odd_below_app. cbn [odd_below].
  rewrite Ex', Ey', Elt. btauto.
Qed.

End InversionParity.

(** ** Swapping two positions of a list *)

Section Swap.

Implicit Types (q : list Z) (i j : nat) (x y : Z).

Lemma swap_split q i j x y :
  i < j -> q !! i = Some x -> q !! j = Some y ->
  exists l1 l2 l3,
    q = l1 ++ x :: l2 ++ y :: l3
    /\ <[j:=x]> (<[i:=y]> q) = l1 ++ y :: l2 ++ x :: l3.
Proof.
  intros Hij Hi Hj.
  pose proof (take_drop_middle q i x Hi) as E1.
  assert (Hj' : drop (S i) q !! (j - S i) = Some y).
  { rewrite lookup_drop. replace (S i + (j - S i)) with j by lia. exact Hj. }
  pose proof (take_drop_middle _ _ _ Hj') as E2.
  set (l1 := take i q) in *.
  set (l2 := take (j - S i) (drop (S i) q)) in *.
  set (l3 := drop (S (j - S i)) (drop (S i) q)) in *.
  assert (L1 : length l1 = i).
  { subst l1. rewrite length_take. apply lookup_lt_Some in Hi. lia. }
  assert (L2 : length l2 = j - S i).
  { subst l2. rewrite length_take, length_drop. apply lookup_lt_Some in Hj. lia. }
  exists l1, l2, l3. rewrite <- E2 in E1. split; [now symmetry|].
  rewrite <- E1.
  rewrite (insert_app_r_alt l1 _ i) by lia.
  replace (i - length l1) with 0 by lia. cbn [insert list_insert].
  rewrite (insert_app_r_alt l1 _ j) by lia.
  replace (j - length l1) with (S (length l2 + 0)) by lia.
  cbn [insert list_insert]. fold (@insert _ _ _ (@list_insert Z)).
  now rewrite (insert_app_r l2 _ 0).
Qed.

Lemma swap_lt q i j x y :
  NoDup q -> i < j -> q !! i = Some x -> q !! j = Some y ->
  <[j:=x]> (<[i:=y]> q) ≡ₚ q
  /\ odd_inversions (<[j:=x]> (<[i:=y]> q)) = negb (odd_inversions q).
Proof.
  intros Hnd Hij Hi Hj.
  destruct (swap_split q i j x y Hij Hi Hj) as (l1 & l2 & l3 & Eq & Es).
  rewrite Es. rewrite Eq in Hnd |- *.
  apply NoDup_app in Hnd as (_ & _ & Hnd).
  apply NoDup_cons in Hnd as [Hx Hnd].
  apply NoDup_app in Hnd as (_ & Hl2 & _).
  split.
  - apply Permutation_app_head.
    rewrite <- (Permutation_middle l2 l3 x), <- (Permutation_middle l2 l3 y).
    apply perm_swap.
  - apply odd_inversions_swap_split.
    + intros ->. apply Hx. apply elem_of_app. right. left.
    + intros Hin. apply Hx. apply elem_of_app. now left.
    + intros Hin. apply (Hl2 y Hin). left.
Qed.

(** The swap performed by the loop body, in either order of positions. *)
Lemma swap_any q i j x y :
  NoDup q -> i <> j -> q !! i = Some x -> q !! j = Some y ->
  <[j:=x]> (<[i:=y]> q) ≡ₚ q
  /\ odd_inversions (<[j:=x]> (<[i:=y]> q)) = negb (odd_inversions q).
Proof.
  intros Hnd Hij Hi Hj.
  destruct (decide (i < j)) as [Hlt|Hge].
  - now apply swap_lt.
  - rewrite list_insert_insert_ne by done.
    apply swap_lt; [done|lia|done|done].
Qed.

End Swap.

(** ** The loops of [permutation_sign] *)

Section SignLoops.

Implicit Types (q : list Z) (n k : nat) (parity : Z).

Lemma position_nat len n : n < len -> PyList.position len (Z.of_nat n) = Some n.
Proof.
  intros Hn. unfold PyList.position.
  rewrite decide_True by lia. now rewrite Nat2Z.id.
Qed.

Lemma position_in_range len x :
  in_range len x -> PyList.position len x = Some (Z.to_nat x).
Proof. intros Hx. unfold PyList.position. now rewrite decide_True. Qed.

Lemma parity_sign_flip q1 q2 parity :
  odd_inversions q2 = negb (odd_inversions q1) ->
  (- parity * parity_sign q2 = parity * parity_sign q1)%Z.
Proof.
  unfold parity_sign. intros ->. destruct (odd_inversions q1); simpl; lia.
Qed.

Lemma parity_sign_cases q : parity_sign q = 1%Z \/ parity_sign q = (-1)%Z.
Proof. unfold parity_sign. destruct (odd_inversions q); auto. Qed.

Lemma swap_until_fixed_correct fuel : forall (U : gset nat) n q parity,
  NoDup q -> Forall (in_range (length q)) q -> n < length q ->
  (forall k, k < length q -> q !! k <> Some (Z.of_nat k) -> k ∈ U) ->
  size U < fuel ->
  exists q' parity',
    swap_until_fixed fuel (Z.of_nat n) q parity = Returns (q', parity')
    /\ NoDup q' /\ length q' = length q /\ Forall (in_range (length q)) q'
    /\ q' !! n = Some (Z.of_nat n)
    /\ (forall k, q !! k = Some (Z.of_nat k) -> q' !! k = Some (Z.of_nat k))
    /\ (parity' * parity_sign q' = parity * parity_sign q)%Z.
Proof.
  induction fuel as [|fuel IH]; intros U n q parity Hnd Hrg Hn HU Hfuel; [lia|].
  destruct (lookup_lt_is_Some_2 q n Hn) as [qn Hqn].
  cbn [swap_until_fixed]. unfold PyList.getitem at 1.
  rewrite position_nat, Hqn by done.
  destruct (decide (Z.of_nat n = qn)) as [Heq|Hne].
  { exists q, parity. subst qn. repeat split; auto. }
  assert (Hqn_rg : in_range (length q) qn).
  { eapply Forall_forall in Hrg; [exact Hrg|]. eapply list_elem_of_lookup_2, Hqn. }
  set (m := Z.to_nat qn).
  assert (Hm : m < length q) by (unfold in_range in Hqn_rg; lia).
  assert (Em : Z.of_nat m = qn) by (unfold in_range in Hqn_rg; lia).
  assert (Hnm : n <> m) by lia.
  destruct (lookup_lt_is_Some_2 q m Hm) as [a Ha].
  unfold PyList.getitem, PyList.setitem.
  rewrite (position_in_range _ qn Hqn_rg), (position_nat _ n Hn). fold m.
  rewrite Ha, Hqn, length_insert, (position_in_range _ qn Hqn_rg). fold m.
  destruct (swap_any q n m qn a Hnd Hnm Hqn Ha) as [Hperm Hpar].
  set (q2 := <[m:=qn]> (<[n:=a]> q)) in *.
  assert (Hlen2 : length q2 = length q) by (subst q2; now rewrite !length_insert).
  assert (Hm_unfixed : q !! m <> Some (Z.of_nat m)).
  { rewrite Em. intros Hfix. apply Hnm.
    eapply NoDup_alt; [exact Hnd|exact Hqn|exact Hfix]. }
  assert (Hkeep : forall k, q !! k = Some (Z.of_nat k) -> q2 !! k = Some (Z.of_nat k)).
  { intros k Hk. subst q2.
    rewrite list_lookup_insert_ne, list_lookup_insert_ne; [done| |].
    - intros ->. rewrite Hqn in Hk. congruence.
    - intros ->. now apply Hm_unfixed. }
  destruct (IH (U ∖ {[ m ]}) n q2 (- parity)%Z) as (q' & parity' & Hrun & R1 & R2 & R3 & R4 & R5 & R6).
  - now rewrite Hperm.
  - rewrite Hlen2. now rewrite Hperm.
  - lia.
  - intros k Hk Hk2. rewrite Hlen2 in Hk. apply elem_of_difference. split.
    + apply HU; [done|]. intros Hfix. apply Hk2. now apply Hkeep.
    + intros ->%elem_of_singleton. apply Hk2. subst q2.
      rewrite list_lookup_insert_eq by (rewrite length_insert; lia). now rewrite Em.
  - assert (Hin : m ∈ U) by (apply HU; done).
    rewrite size_difference by set_solver. rewrite size_singleton.
    assert (size U <> 0); [|lia].
    intros Hz. apply size_empty_inv in Hz. set_solver.
  - exists q', parity'. rewrite Hlen2 in R2, R3.
    repeat split; auto.
    rewrite R6. now apply parity_sign_flip.
Qed.

End SignLoops.

Section SignOuter.

Implicit Types (q p : list Z) (n k : nat) (parity : Z).

Lemma odd_below_all_above x l :
  Forall (fun y => (x <= y)%Z) l -> odd_below x l = false.
Proof.
  induction 1 as [|y l Hy _ IH]; [done|].
  cbn [odd_below]. rewrite IH. destruct (Z.ltb_spec y x); [lia|done].
Qed.

Lemma odd_inversions_iota n : forall a,
  odd_inversions (Z.of_nat <$> seq a n) = false.
Proof.
  induction n as [|n IH]; intros a; [done|].
  cbn [seq fmap list_fmap odd_inversions]. fold (@fmap list _ nat Z Z.of_nat).
  rewrite IH, odd_below_all_above; [done|].
  apply Forall_fmap, Forall_forall. intros y Hy%elem_of_seq. simpl. lia.
Qed.

Lemma all_fixed_iota q :
  (forall k, k < length q -> q !! k = Some (Z.of_nat k)) ->
  q = Z.of_nat <$> seq 0 (length q).
Proof.
  intros Hfix. apply list_eq. intros k.
  rewrite list_lookup_fmap.
  destruct (decide (k < length q)) as [Hk|Hk].
  - rewrite Hfix, lookup_seq_lt by done. done.
  - rewrite lookup_ge_None_2, lookup_seq_ge by lia. done.
Qed.

Lemma sign_loop_correct fuel m : forall n q parity,
  NoDup q -> Forall (in_range (length q)) q -> n + m = length q ->
  (forall k, k < n -> q !! k = Some (Z.of_nat k)) ->
  length q < fuel ->
  sign_loop fuel (seq n m) q parity = Returns (parity * parity_sign q)%Z.
Proof.
  induction m as [|m IH]; intros n q parity Hnd Hrg Hlen Hfix Hfuel.
  - cbn [seq sign_loop].
    assert (E : parity_sign q = 1%Z).
    { rewrite (all_fixed_iota q) by (intros k Hk; apply Hfix; lia).
      unfold parity_sign. now rewrite odd_inversions_iota. }
    rewrite E. f_equal. lia.
  - cbn [seq sign_loop].
    destruct (swap_until_fixed_correct fuel (list_to_set (seq 0 (length q))) n q parity)
      as (q' & parity' & Hrun & R1 & R2 & R3 & R4 & R5 & R6); auto; try lia.
    + intros k Hk _. apply elem_of_list_to_set, elem_of_seq. lia.
    + rewrite size_list_to_set by apply NoDup_seq. now rewrite length_seq.
    + rewrite Hrun, <- R6. apply IH; rewrite ?R2; auto; try lia.
      intros k Hk. destruct (decide (k = n)) as [->|Hkn]; [done|].
      apply R5, Hfix. lia.
Qed.

Lemma is_permutation_NoDup p : is_permutation p -> NoDup p.
Proof.
  unfold is_permutation. intros ->.
  apply NoDup_fmap_2; [intros x y; lia|apply NoDup_seq].
Qed.

Lemma is_permutation_range p : is_permutation p -> Forall (in_range (length p)) p.
Proof.
  unfold is_permutation. intros Hp. rewrite Hp at 2.
  apply Forall_fmap, Forall_forall. intros y Hy%elem_of_seq.
  unfold in_range. simpl. lia.
Qed.

Lemma permutation_sign_fuel_correct p fuel :
  is_permutation p -> length p < fuel ->
  permutation_sign_fuel fuel p = Returns (parity_sign p).
Proof.
  intros Hp Hfuel. unfold permutation_sign_fuel.
  rewrite (sign_loop_correct fuel (length p) 0 p 1%Z); try done.
  - f_equal. lia.
  - now apply is_permutation_NoDup.
  - now apply is_permutation_range.
  - intros k Hk. lia.
Qed.

End SignOuter.

(** C9: on every permutation [p] of [0 .. n-1], [permutation_sign]
    terminates (any fuel above [len(p)] is enough for each [while] loop) and
    returns the inversion parity of [p], which is [+1] or [-1]; on the six
    permutations of [{0,1,2}] it returns [+1] for the identity and the two
    3-cycles and [-1] for the three transpositions. *)
Theorem permutation_sign_parity :
  (forall p : list Z, is_permutation p ->
     (forall fuel, length p < fuel ->
        permutation_sign_fuel fuel p = Returns (parity_sign p))
     /\ permutation_sign p = Returns (parity_sign p)
     /\ (parity_sign p = 1%Z \/ parity_sign p = (-1)%Z))
  /\ permutation_sign [0; 1; 2]%Z = Returns 1%Z
  /\ permutation_sign [1; 2; 0]%Z = Returns 1%Z
  /\ permutation_sign [2; 0; 1]%Z = Returns 1%Z
  /\ permutation_sign [0; 2; 1]%Z = Returns (-1)%Z
  /\ permutation_sign [1; 0; 2]%Z = Returns (-1)%Z
  /\ permutation_sign [2; 1; 0]%Z = Returns (-1)%Z.
Proof.
  split; [|repeat split; reflexivity].
  intros p Hp. split; [|split].
  - intros fuel Hfuel. now apply permutation_sign_fuel_correct.
  - apply permutation_sign_fuel_correct; [done|lia].
  - apply parity_sign_cases.
Qed.

Lemma permutation_sign_parity_witness :
  is_permutation [2; 0; 1]%Z
  /\ permutation_sign_fuel 4 [2; 0; 1]%Z = Returns (parity_sign [2; 0; 1]%Z).
Proof.
  assert (Hp : is_permutation [2; 0; 1]%Z).
  { unfold is_permutation. simpl.
    apply perm_trans with [0; 2; 1]%Z; [apply perm_swap|].
    apply perm_skip, perm_swap. }
  split; [exact Hp|].
  apply (proj1 (proj1 permutation_sign_parity [2; 0; 1]%Z Hp) 4). simpl. lia.
Defined.

(** ** The su(8) generators *)

Lemma su8_symmetric_entries :
  forallb (fun b => forallb (fun r => forallb (fun c =>
    symmetric_entry_ok SU8.instance b r c) (seq 0 8)) (seq 0 8)) (seq 0 35) = true.
Proof. vm_compute. reflexivity. Qed.

Lemma su8_antisymmetric_entries :
  forallb (antisymmetric_ok SU8.instance) (seq 0 28) = true.
Proof. vm_compute. reflexivity. Qed.

(** C4, as the code has it: [SU8.__init__] returns; generators [0 .. 34] of
    [t_aij] are the imaginary unit times the 35 symmetric-traceless basis
    matrices; and for the pair [(i, j)] at position [a] of the
    lexicographic pair list, generator [35 + a] has entry [-1] at [(i, j)],
    entry [+1] at [(j, i)] and [0] elsewhere. *)
Theorem su8_generator_set (a i j k l : nat)
    (Hpair : SU8.ij_map !! a = Some (i, j)) (Hk : k < 8) (Hl : l < 8) :
  SU8.__init__ = Returns SU8.instance
  /\ (forall b r c, b < 35 -> r < 8 -> c < 8 ->
        exists x, Nd.get (SU8.m_35_8_8 SU8.instance) [b; r; c] = Some x
                  /\ Nd.get (SU8.t_aij SU8.instance) [b; r; c] = Some (Cmul Ci x))
  /\ i < j < 8
  /\ Nd.get (SU8.t_aij SU8.instance) [35 + a; i; j] = Some (RtoC (-1))
  /\ Nd.get (SU8.t_aij SU8.instance) [35 + a; j; i] = Some (RtoC 1)
  /\ ((k, l) <> (i, j) -> (k, l) <> (j, i) ->
      Nd.get (SU8.t_aij SU8.instance) [35 + a; k; l] = Some (RtoC 0)).
Proof.
  split; [reflexivity|]. split.
  { intros b r c Hb Hr Hc.
    pose proof (forallb_below 35 _ su8_symmetric_entries b Hb) as H1.
    pose proof (forallb_below 8 _ H1 r Hr) as H2.
    pose proof (forallb_below 8 _ H2 c Hc) as H3. cbv beta in H3.
    unfold symmetric_entry_ok in H3.
    destruct (Nd.get (SU8.m_35_8_8 SU8.instance) [b; r; c]) as [x|];
      [|discriminate H3].
    exists x. split; [reflexivity|]. apply bool_decide_eq_true in H3. exact H3. }
  assert (Ha : a < 28).
  { apply lookup_lt_Some in Hpair. exact Hpair. }
  assert (Hij : i < j < 8).
  { apply list_elem_of_lookup_2 in Hpair. unfold SU8.ij_map in Hpair.
    apply list_elem_of_bind in Hpair as (i' & Hin & Hi'%elem_of_seq).
    apply list_elem_of_bind in Hin as (j' & Hin & Hj'%elem_of_seq).
    destruct (decide (i' < j')) as [Hlt|]; [|by apply elem_of_nil in Hin].
    apply list_elem_of_singleton in Hin. injection Hin as -> ->. lia. }
  split; [exact Hij|].
  pose proof (forallb_below 28 _ su8_antisymmetric_entries a Ha) as H1.
  unfold antisymmetric_ok in H1. rewrite Hpair in H1.
  apply andb_prop in H1 as [H1 H4]. apply andb_prop in H1 as [H2 H3].
  apply bool_decide_eq_true in H2, H3.
  split; [exact H2|]. split; [exact H3|].
  intros Hne1 Hne2.
  pose proof (forallb_below 8 _ H4 k Hk) as H5.
  pose proof (forallb_below 8 _ H5 l Hl) as H6. cbv beta in H6.
  apply orb_prop in H6 as [H6|H6]; [apply orb_prop in H6 as [H6|H6]|];
    apply bool_decide_eq_true in H6; [contradiction|contradiction|exact H6].
Qed.

Lemma su8_generator_set_witness :
  SU8.ij_map !! 1 = Some (0, 2)
  /\ Nd.get (SU8.t_aij SU8.instance) [35 + 1; 0; 2] = Some (RtoC (-1))
  /\ Nd.get (SU8.t_aij SU8.instance) [35 + 1; 2; 0] = Some (RtoC 1)
  /\ Nd.get (SU8.t_aij SU8.instance) [35 + 1; 3; 4] = Some (RtoC 0).
Proof.
  assert (Hpair : SU8.ij_map !! 1 = Some (0, 2)) by reflexivity.
  assert (H3 : 3 < 8) by lia. assert (H4 : 4 < 8) by lia.
  pose proof (su8_generator_set 1 0 2 3 4 Hpair H3 H4) as (_ & _ & _ & E1 & E2 & E3).
  split; [exact Hpair|]. split; [exact E1|]. split; [exact E2|].
  apply E3; intros [=].
Defined.

(** The sign convention of the specification, [+1] at [(i, j)] and [-1]
    at [(j, i)], fails on the first antisymmetric generator. *)
Lemma su8_antisymmetric_sign_counterexample :
  SU8.ij_map !! 0 = Some (0, 1)
  /\ Nd.get (SU8.t_aij SU8.instance) [35 + 0; 0; 1] = Some (RtoC (-1))
  /\ Nd.get (SU8.t_aij SU8.instance) [35 + 0; 1; 0] = Some (RtoC 1)
  /\ Nd.get (SU8.t_aij SU8.instance) [35 + 0; 0; 1] <> Some (RtoC 1)
  /\ ~ Ceq (RtoC (-1)) (RtoC 1).
Proof.
  repeat split; try reflexivity.
  - vm_compute. discriminate.
  - intros [H _]. vm_compute in H. discriminate.
Qed.

(** ** Antisymmetry of the projector *)

Lemma projector_checked_selfdual : projector_checked true = true.
Proof. vm_compute. reflexivity. Qed.

Lemma projector_checked_antiselfdual : projector_checked false = true.
Proof. vm_compute. reflexivity. Qed.

Lemma projector_checked_both (want_selfdual : bool) :
  projector_checked want_selfdual = true.
Proof.
  destruct want_selfdual;
    [apply projector_checked_selfdual|apply projector_checked_antiselfdual].
Qed.

Lemma adj_swap_length {X} k : forall l : list X, length (adj_swap k l) = length l.
Proof.
  induction k as [|k IH]; intros [|x [|y l]]; simpl; try done;
    now rewrite IH.
Qed.

Lemma adj_swap_below n k : forall i, all_below n i -> all_below n (adj_swap k i).
Proof.
  unfold all_below.
  induction k as [|k IH]; intros [|x l] Hi; simpl; try done.
  - destruct l as [|y l]; [done|].
    inversion Hi as [|? ? Hx Hl]; subst. inversion Hl as [|? ? Hy Hl']; subst.
    repeat constructor; done.
  - inversion Hi as [|? ? Hx Hl]; subst. constructor; [done|]. now apply IH.
Qed.

Lemma adj_swap_map {X Y} (f : X -> Y) k : forall l,
  List.map f (adj_swap k l) = adj_swap k (List.map f l).
Proof.
  induction k as [|k IH]; intros [|x [|y l]]; simpl; try done;
    now rewrite IH.
Qed.

Lemma apply_swaps_map {X Y} (f : X -> Y) ks : forall l,
  List.map f (apply_swaps ks l) = apply_swaps ks (List.map f l).
Proof.
  unfold apply_swaps.
  induction ks as [|k ks IH]; intros l; simpl; [done|].
  now rewrite IH, adj_swap_map.
Qed.

(** Rearranging by an arrangement reached from the identity by exchanges
    is the same as performing those exchanges. *)
Lemma permute_index_swaps ks sigma i0 i1 i2 i3 :
  apply_swaps ks [0; 1; 2; 3] = sigma ->
  permute_index sigma [i0; i1; i2; i3] = apply_swaps ks [i0; i1; i2; i3].
Proof.
  intros <-. unfold permute_index. now rewrite apply_swaps_map.
Qed.

Section Row.

Variable row : ndarray Q.
Hypothesis row_ok : antisymmetric_row row = true.

Lemma row_swap k i0 i1 i2 i3 :
  k < 3 -> i0 < 8 -> i1 < 8 -> i2 < 8 -> i3 < 8 ->
  exists x' x,
    Nd.get row (adj_swap k [i0; i1; i2; i3]) = Some x'
    /\ Nd.get row [i0; i1; i2; i3] = Some x /\ x' == - x.
Proof.
  intros Hk H0 H1 H2 H3. unfold antisymmetric_row in row_ok.
  pose proof (forallb_below 3 _ row_ok k Hk) as C0.
  pose proof (forallb_below 8 _ C0 i0 H0) as C1.
  pose proof (forallb_below 8 _ C1 i1 H1) as C2.
  pose proof (forallb_below 8 _ C2 i2 H2) as C3.
  pose proof (forallb_below 8 _ C3 i3 H3) as C4.
  cbv beta in C4. unfold swap_negates in C4.
  destruct (Nd.get row (adj_swap k [i0; i1; i2; i3])) as [x'|]; [|done].
  destruct (Nd.get row [i0; i1; i2; i3]) as [x|]; [|done].
  exists x', x. repeat split. now apply Qeq_bool_iff.
Qed.

Lemma row_swaps ks : forall i,
  Forall (fun k => k < 3) ks -> length i = 4 -> all_below 8 i ->
  exists x' x,
    Nd.get row (apply_swaps ks i) = Some x'
    /\ Nd.get row i = Some x /\ x' == alternating (length ks) * x.
Proof.
  induction ks as [|k ks IH]; intros i Hks Hlen Hi.
  - destruct i as [|i0 [|i1 [|i2 [|i3 [|]]]]]; try done.
    inversion Hi as [|? ? H0 Hi1]; subst. inversion Hi1 as [|? ? H1 Hi2]; subst.
    inversion Hi2 as [|? ? H2 Hi3]; subst. inversion Hi3 as [|? ? H3 _]; subst.
    assert (Hz : 0 < 3) by lia.
    destruct (row_swap 0 i0 i1 i2 i3 Hz H0 H1 H2 H3) as (_ & x & _ & Hx & _).
    exists x, x. simpl. repeat split; try done. ring.
  - inversion Hks as [|? ? Hk Hks']; subst.
    destruct (IH (adj_swap k i) Hks') as (x' & y & E1 & E2 & E3).
    { now rewrite adj_swap_length. }
    { now apply adj_swap_below. }
    destruct i as [|i0 [|i1 [|i2 [|i3 [|]]]]]; try done.
    inversion Hi as [|? ? H0 Hi1]; subst. inversion Hi1 as [|? ? H1 Hi2]; subst.
    inversion Hi2 as [|? ? H2 Hi3]; subst. inversion Hi3 as [|? ? H3 _]; subst.
    destruct (row_swap k i0 i1 i2 i3 Hk H0 H1 H2 H3) as (y' & x & F1 & F2 & F3).
    rewrite E2 in F1. injection F1 as ->.
    exists x', x. repeat split; try done.
    rewrite E3, F3. cbn [length alternating]. ring.
Qed.

End Row.

Lemma arrangements_ok : forallb arrangement_ok arrangements = true.
Proof. vm_compute. reflexivity. Qed.

Lemma arrangements_complete sigma :
  sigma ≡ₚ [0; 1; 2; 3] -> sigma ∈ arrangements.
Proof.
  intros Hp.
  assert (Hlen : length sigma = 4) by (now rewrite Hp).
  assert (Hnd : NoDup sigma) by (rewrite Hp; apply (bool_decide_unpack _); reflexivity).
  assert (Hlt : Forall (fun x => x < 4) sigma).
  { rewrite Hp. repeat constructor. }
  assert (Hb : bool_decide (NoDup sigma) = true) by (now apply bool_decide_eq_true_2).
  clear Hnd.
  destruct sigma as [|s0 [|s1 [|s2 [|s3 [|]]]]]; try done.
  inversion Hlt as [|? ? H0 Hl1]; subst. inversion Hl1 as [|? ? H1 Hl2]; subst.
  inversion Hl2 as [|? ? H2 Hl3]; subst. inversion Hl3 as [|? ? H3 _]; subst.
  clear Hp Hlen Hlt Hl1 Hl2 Hl3.
  destruct s0 as [|[|[|[|]]]]; try lia;
  destruct s1 as [|[|[|[|]]]]; try lia;
  destruct s2 as [|[|[|[|]]]]; try lia;
  destruct s3 as [|[|[|[|]]]]; try lia;
  vm_compute in Hb; try discriminate Hb;
  apply (bool_decide_unpack _); vm_compute; reflexivity.
Qed.

(** C8: for [want_selfdual] true and false alike, [get_proj_35_8888]
    returns a 35 x 8 x 8 x 8 x 8 array that is fully antisymmetric in its
    last four indices: for every first index [a], every arrangement
    [sigma] of the four positions and all index values, the entry at the
    rearranged index is the sign of [sigma] times the entry at the index. *)
Theorem projector_fully_antisymmetric (want_selfdual : bool) (a : nat)
    (sigma : list nat) (i0 i1 i2 i3 : nat)
    (Ha : a < 35) (Hsigma : sigma ≡ₚ [0; 1; 2; 3])
    (H0 : i0 < 8) (H1 : i1 < 8) (H2 : i2 < 8) (H3 : i3 < 8) :
  exists t x' x,
    SelfDual.get_proj_35_8888 want_selfdual = Returns t
    /\ Tensor.array_shape t = [35; 8; 8; 8; 8]
    /\ Nd.get t (a :: permute_index sigma [i0; i1; i2; i3]) = Some x'
    /\ Nd.get t [a; i0; i1; i2; i3] = Some x
    /\ x' == sign_of sigma * x.
Proof.
  pose proof (projector_checked_both want_selfdual) as Hc.
  unfold projector_checked in Hc.
  assert (Hshape : match SelfDual.get_proj_35_8888 want_selfdual with
                   | Returns t => Tensor.array_shape t = [35; 8; 8; 8; 8]
                   | _ => True
                   end)
    by (destruct want_selfdual; vm_compute; reflexivity).
  destruct (SelfDual.get_proj_35_8888 want_selfdual) as [t| |]; try done.
  destruct t as [|rows]; [done|].
  apply andb_prop in Hc as [Hlen Hrows]. apply bool_decide_eq_true in Hlen.
  destruct (lookup_lt_is_Some_2 rows a) as [row Hrow]; [lia|].
  assert (Hrow_ok : antisymmetric_row row = true).
  { rewrite forallb_forall in Hrows. apply Hrows.
    apply list_elem_of_In. eapply list_elem_of_lookup_2, Hrow. }
  pose proof (arrangements_complete sigma Hsigma) as Hin.
  pose proof arrangements_ok as Hall. rewrite forallb_forall in Hall.
  apply list_elem_of_In, Hall in Hin. unfold arrangement_ok in Hin.
  apply andb_prop in Hin as [Hin Hsign]. apply andb_prop in Hin as [Hks Hks3].
  apply bool_decide_eq_true in Hks. apply Qeq_bool_iff in Hsign.
  assert (Hks3' : Forall (fun k => k < 3) (swaps_of sigma)).
  { apply Forall_forall. intros k Hk. rewrite forallb_forall in Hks3.
    apply list_elem_of_In, Hks3 in Hk. now apply bool_decide_eq_true in Hk. }
  destruct (row_swaps row Hrow_ok (swaps_of sigma) [i0; i1; i2; i3] Hks3')
    as (x' & x & E1 & E2 & E3);
    [done|unfold all_below; repeat (constructor; [done|]); constructor|].
  exists (Axis rows), x', x.
  split; [done|]. split; [done|].
  cbn [Nd.get]. rewrite Hrow.
  rewrite (permute_index_swaps (swaps_of sigma) sigma i0 i1 i2 i3 Hks).
  repeat split; try done. now rewrite <- Hsign.
Qed.

Lemma projector_fully_antisymmetric_witness :
  exists t x' x,
    SelfDual.get_proj_35_8888 false = Returns t
    /\ Tensor.array_shape t = [35; 8; 8; 8; 8]
    /\ Nd.get t (1 :: permute_index [1; 0; 3; 2] [3; 5; 6; 7]) = Some x'
    /\ Nd.get t [1; 3; 5; 6; 7] = Some x
    /\ x' == sign_of [1; 0; 3; 2] * x.
Proof.
  apply (projector_fully_antisymmetric false 1 [1; 0; 3; 2] 3 5 6 7); try lia.
  apply perm_trans with [0; 1; 3; 2]; [apply perm_swap|].
  do 2 apply perm_skip. apply perm_swap.
Defined.

(** ** The loop of [E7.__init__] *)

Section SliceAssignments.

Context {A : Type}.
Implicit Types (assignments : list (list slice * tensor A)) (t u : tensor A).

Lemma assign_all_dims assignments : forall t,
  dims (assign_all assignments t) = dims t.
Proof.
  induction assignments as [|[ss v] rest IH]; intros t; [done|].
  unfold assign_all in *. cbn [fold_left fst snd]. now rewrite IH.
Qed.

Lemma stored_default shape assignments idx : forall x acc,
  default x (stored shape assignments idx acc)
  = default (default x acc) (stored shape assignments idx None).
Proof.
  induction assignments as [|[ss v] rest IH]; intros x acc; [done|].
  cbn [stored]. destruct (Tensor.inside _ _ idx).
  - rewrite (IH x (Some _)), (IH (default x acc) (Some _)). done.
  - apply IH.
Qed.

Lemma assign_all_entry assignments : forall t idx,
  entry (assign_all assignments t) idx
  = default (entry t idx) (stored (dims t) assignments idx None).
Proof.
  induction assignments as [|[ss v] rest IH]; intros t idx; [done|].
  unfold assign_all in *. cbn [fold_left fst snd stored].
  rewrite IH. cbn [Tensor.set_slice dims entry].
  destruct (Tensor.inside _ _ idx).
  - now rewrite (stored_default (dims t) rest idx (entry t idx) (Some _)).
  - done.
Qed.

(** Repeating a sequence of slice assignments changes nothing. *)
Lemma assign_all_idempotent assignments t :
  same_tensor (assign_all assignments (assign_all assignments t))
              (assign_all assignments t).
Proof.
  split; [now rewrite !assign_all_dims|].
  intros idx. rewrite (assign_all_entry assignments (assign_all _ _)).
  rewrite assign_all_dims, assign_all_entry.
  now destruct (stored (dims t) assignments idx None).
Qed.

Lemma assign_all_same assignments t u :
  same_tensor t u ->
  same_tensor (assign_all assignments t) (assign_all assignments u).
Proof.
  intros [Hd He]. split; [now rewrite !assign_all_dims|].
  intros idx. rewrite !assign_all_entry, Hd, He. done.
Qed.

End SliceAssignments.

Section E7Loop.

Variables (spin8 : Spin8.spin8) (su8 : SU8.su8).

Lemma loop_body_assignments t a :
  E7.loop_body spin8 su8 t a = assign_all (body_assignments spin8 su8) t.
Proof. reflexivity. Qed.

Lemma loop_repeated n : forall t,
  same_tensor (fold_left (E7.loop_body spin8 su8) (seq 0 (S n)) t)
              (E7.loop_body spin8 su8 t 0).
Proof.
  assert (Hgen : forall k a t,
    same_tensor (fold_left (E7.loop_body spin8 su8) (seq a (S k)) t)
                (assign_all (body_assignments spin8 su8) t)).
  { induction k as [|k IH]; intros a t.
    - cbn [seq fold_left]. rewrite loop_body_assignments. now split.
    - change (seq a (S (S k))) with (a :: seq (S a) (S k)).
      cbn [fold_left]. rewrite loop_body_assignments.
      destruct (IH (S a) (assign_all (body_assignments spin8 su8) t)) as [Hd He].
      destruct (assign_all_idempotent (body_assignments spin8 su8) t) as [Hd' He'].
      split; [now rewrite Hd|]. intros idx. now rewrite He. }
  intros t. rewrite loop_body_assignments. apply Hgen.
Qed.

End E7Loop.

(** C10: the loop [for a in range(35)] of [E7.__init__] never uses [a]:
    its body is the same function of the tensor for every [a], and the
    tensor the constructor produces after 35 iterations has the shape
    133 x 56 x 56 and the entries of the tensor obtained by running the
    body exactly once. *)
Theorem e7_loop_equals_single_pass (spin8 : Spin8.spin8) (su8 : SU8.su8) :
  (forall t a a', E7.loop_body spin8 su8 t a = E7.loop_body spin8 su8 t a')
  /\ dims (E7.__init__ spin8 su8) = [133; 56; 56]
  /\ dims (E7.init_single_pass spin8 su8) = [133; 56; 56]
  /\ forall idx,
       entry (E7.__init__ spin8 su8) idx = entry (E7.init_single_pass spin8 su8) idx.
Proof.
  split; [reflexivity|].
  destruct (loop_repeated spin8 su8 34 (Tensor.zeros [133; 56; 56])) as [Hd He].
  assert (Hs : dims (E7.init_single_pass spin8 su8) = [133; 56; 56]).
  { unfold E7.init_single_pass. rewrite loop_body_assignments.
    now rewrite assign_all_dims. }
  split; [|split; [exact Hs|]].
  - unfold E7.__init__. change (seq 0 35) with (seq 0 (S 34)). now rewrite Hd.
  - intros idx. unfold E7.__init__. change (seq 0 35) with (seq 0 (S 34)).
    now rewrite He.
Qed.

(** ** The scan driver *)

Section ScanLoop.

Variable scanner : scanner_type.

Lemma calls_after_succ seed0 N :
  calls_after seed0 (S N)
  = ((seed0 + 1)%Z, restart_scale) :: calls_after (seed0 + 1) N.
Proof.
  unfold calls_after. cbn [seq List.map]. f_equal.
  - f_equal. lia.
  - rewrite <- seq_shift, List.map_map. apply List.map_ext.
    intros k. f_equal. lia.
Qed.

Lemma last_accepted_count (rs : list scanned) :
  rs <> [] -> (forall r, last rs = Some r -> accepted r = true) ->
  0 < length (List.filter accepted rs).
Proof.
  induction rs as [|r rs IH]; intros Hne Hlast; [done|].
  cbn [List.filter]. destruct rs as [|r' rs'].
  - rewrite (Hlast r) by done. simpl. lia.
  - destruct (accepted r); [simpl; lia|].
    apply IH; [done|]. intros r0 Hr0. apply Hlast. exact Hr0.
Qed.

Lemma scan_loop_run (num_to_produce : Z) (rs : list scanned) :
  forall fuel st,
    (forall k r, rs !! k = Some r ->
       scanner (seed st + 1 + Z.of_nat k)%Z restart_scale = Returns r) ->
    Z.of_nat (length (ret st) + length (List.filter accepted rs)) = num_to_produce ->
    (forall r, last rs = Some r -> accepted r = true) ->
    length rs < fuel ->
    scan_loop fuel scanner num_to_produce st
    = Returns {| ret := ret st ++ List.filter accepted rs;
                 seed := (seed st + Z.of_nat (length rs))%Z;
                 calls := calls st ++ calls_after (seed st) (length rs) |}.
Proof.
  induction rs as [|r rs IH]; intros fuel st Hcalls Hcount Hlast Hfuel.
  - destruct fuel as [|fuel]; [simpl in Hfuel; lia|].
    cbn [scan_loop]. simpl in Hcount.
    rewrite decide_False by lia.
    destruct st as [ret0 seed0 calls0]. cbn.
    rewrite !app_nil_r. do 2 f_equal. lia.
  - destruct fuel as [|fuel]; [simpl in Hfuel; lia|].
    cbn [scan_loop].
    assert (Hpos : 0 < length (List.filter accepted (r :: rs)))
      by (apply last_accepted_count; done).
    rewrite decide_True by lia.
    pose proof (Hcalls 0 r eq_refl) as Hr. rewrite Z.add_0_r in Hr.
    rewrite Hr. cbn [mbind outcome_mbind outcome_bind].
    fold (accepted r).
    assert (Hlast' : accepted r = false -> rs <> []).
    { intros Hrej ->. rewrite (Hlast r) in Hrej; done. }
    assert (Hlast_tl : rs <> [] -> forall r0, last rs = Some r0 -> accepted r0 = true).
    { intros Hne r0 Hr0. apply Hlast. destruct rs; [done|exact Hr0]. }
    assert (Hcalls_tl : forall k r0, rs !! k = Some r0 ->
              scanner (seed st + 1 + 1 + Z.of_nat k)%Z restart_scale = Returns r0).
    { intros k r0 Hk. rewrite <- (Hcalls (S k) r0 Hk). f_equal. lia. }
    cbn [List.filter] in Hcount |- *. cbn [length].
    rewrite calls_after_succ.
    destruct (accepted r) eqn:Hacc.
    + rewrite IH; cbn [ret seed calls]; try done.
      * rewrite <- !app_assoc. cbn [app]. do 2 f_equal. lia.
      * rewrite length_app. cbn [length] in Hcount |- *. lia.
      * intros r0 Hr0. destruct rs as [|r1 rs1]; [done|].
        now apply Hlast_tl.
      * simpl in Hfuel. lia.
    + rewrite IH; cbn [ret seed calls]; try done.
      * rewrite <- !app_assoc. cbn [app]. do 2 f_equal. lia.
      * apply Hlast_tl. now apply Hlast'.
      * simpl in Hfuel. lia.
Qed.

Lemma scan_loop_keeps_accepted (num_to_produce : Z) :
  forall fuel st st',
    Forall (fun r => accepted r = true) (ret st) ->
    scan_loop fuel scanner num_to_produce st = Returns st' ->
    Forall (fun r => accepted r = true) (ret st').
Proof.
  induction fuel as [|fuel IH]; intros st st' Hok Hrun; [done|].
  cbn [scan_loop] in Hrun.
  destruct (decide _) as [Hlt|Hge]; [|injection Hrun as <-; done].
  destruct (scanner _ _) as [r| |]; cbn in Hrun; try done.
  destruct (float_lt _ _) eqn:Hacc.
  - apply IH in Hrun; [done|]. cbn [ret].
    apply Forall_app. split; [done|]. constructor; [exact Hacc|constructor].
  - apply IH in Hrun; done.
Qed.

Lemma scan_loop_raises (num_to_produce : Z) :
  (forall s x, scanner s x <> Raises) ->
  forall fuel st, scan_loop fuel scanner num_to_produce st <> Raises.
Proof.
  intros Hscan. induction fuel as [|fuel IH]; intros st; [done|].
  cbn [scan_loop]. destruct (decide _); [|done].
  destruct (scanner _ _) as [r| |] eqn:Hr; cbn; try done.
  - destruct (float_lt _ _); apply IH.
  - now apply Hscan in Hr.
Qed.

End ScanLoop.

Lemma accepted_not_nan_posinf (r : scanned) :
  accepted r = true ->
  scanned_stationarity r <> NaN /\ scanned_stationarity r <> PosInf.
Proof.
  unfold accepted. destruct (scanned_stationarity r); simpl; intros H; split; done.
Qed.

(** C6: let [rs] be the results of the scanner on the seeds [1 .. N] at
    scale [2.0], where exactly [n] of them are accepted (stationarity
    [< 1e-3]) and the last one is.  Then [scan_many(scanner, n)] returns
    after calling the scanner with the seeds [1, 2, ..., N] in this order,
    each at scale [2.0], and its result is the list of the accepted
    attempts, in order: exactly [n] of them, each with stationarity
    [< 1e-3].  In particular, when the first attempt is accepted and
    [n = 1], exactly one scanner call is made. *)
Theorem scan_many_returns_first_accepted (scanner : scanner_type) (fuel : nat) :
  (forall (n : Z) (rs : list scanned),
     (forall k r, rs !! k = Some r ->
        scanner (Z.of_nat k + 1)%Z (Finite 2.0) = Returns r) ->
     Z.of_nat (length (List.filter accepted rs)) = n ->
     (forall r, last rs = Some r -> accepted r = true) ->
     length rs < fuel ->
     exists st,
       scan_many fuel scanner n = Returns st
       /\ List.map fst (calls st) = seeds_upto (length rs)
       /\ Forall (fun c => snd c = Finite 2.0) (calls st)
       /\ ret st = List.filter accepted rs
       /\ Z.of_nat (length (ret st)) = n
       /\ Forall (fun r => float_lt (scanned_stationarity r) threshold = true) (ret st))
  /\ (forall r,
        scanner 1%Z (Finite 2.0) = Returns r -> accepted r = true -> 2 <= fuel ->
        exists st,
          scan_many fuel scanner 1 = Returns st
          /\ calls st = [(1%Z, Finite 2.0)] /\ ret st = [r]).
Proof.
  assert (Hgen : forall (n : Z) (rs : list scanned),
     (forall k r, rs !! k = Some r ->
        scanner (Z.of_nat k + 1)%Z (Finite 2.0) = Returns r) ->
     Z.of_nat (length (List.filter accepted rs)) = n ->
     (forall r, last rs = Some r -> accepted r = true) ->
     length rs < fuel ->
     scan_many fuel scanner n
     = Returns {| ret := List.filter accepted rs;
                  seed := Z.of_nat (length rs);
                  calls := calls_after 0 (length rs) |}).
  { intros n rs Hcalls Hcount Hlast Hfuel. unfold scan_many.
    rewrite (scan_loop_run scanner n rs); cbn [ret seed calls length]; try done.
    intros k r Hk. rewrite <- (Hcalls k r Hk). f_equal. lia. }
  split.
  - intros n rs Hcalls Hcount Hlast Hfuel.
    eexists. split; [apply (Hgen n rs); done|]. cbn [ret seed calls].
    split; [|split; [|split; [done|split; [done|]]]].
    + unfold calls_after, seeds_upto. rewrite List.map_map.
      apply List.map_ext. intros k. cbn [fst]. lia.
    + unfold calls_after. apply Forall_forall. intros c Hc.
      apply list_elem_of_In, in_map_iff in Hc as (k & <- & _). reflexivity.
    + apply Forall_forall. intros r Hr.
      apply list_elem_of_In, filter_In in Hr as [_ Hr]. exact Hr.
  - intros r Hr Hacc Hfuel.
    eexists. split.
    + apply (Hgen 1%Z [r]).
      * intros [|k] r0 Hk; [|done]. injection Hk as <-. exact Hr.
      * cbn [List.filter]. now rewrite Hacc.
      * intros r0 Hr0. injection Hr0 as <-. exact Hacc.
      * simpl. lia.
    + cbn [calls ret List.filter]. rewrite Hacc. split; reflexivity.
Qed.

Lemma scan_many_returns_first_accepted_witness :
  exists st,
    scan_many 5 second_try 2 = Returns st
    /\ List.map fst (calls st) = seeds_upto 3
    /\ Forall (fun c => snd c = Finite 2.0) (calls st)
    /\ ret st = [converged; converged]
    /\ Z.of_nat (length (ret st)) = 2%Z
    /\ Forall (fun r => float_lt (scanned_stationarity r) threshold = true) (ret st).
Proof.
  apply (proj1 (scan_many_returns_first_accepted second_try 5) 2%Z
           [unconverged; converged; converged]).
  - intros [|[|[|k]]] r Hk; try done; injection Hk as <-; reflexivity.
  - reflexivity.
  - intros r Hr. injection Hr as <-. reflexivity.
  - simpl. lia.
Defined.

(** C5, as the code has it: [scan_many] records an attempt exactly when
    its stationarity compares below [1e-3].  So every recorded attempt has
    a stationarity that is neither NaN nor +infinity, an attempt whose
    stationarity is NaN or +infinity is never recorded, and the driver
    raises only if the scanner does.  Nothing tests for finiteness or
    replaces a value by +infinity, and the potential is not inspected. *)
Theorem scan_many_rejects_nan_and_posinf (scanner : scanner_type) (fuel : nat)
    (n : Z) (st : scan_state) (Hrun : scan_many fuel scanner n = Returns st) :
  Forall (fun r => float_lt (scanned_stationarity r) threshold = true) (ret st)
  /\ (forall r, scanned_stationarity r = NaN \/ scanned_stationarity r = PosInf ->
        r ∉ ret st)
  /\ ((forall s x, scanner s x <> Raises) ->
      forall fuel' n', scan_many fuel' scanner n' <> Raises).
Proof.
  assert (Hok : Forall (fun r => accepted r = true) (ret st)).
  { eapply scan_loop_keeps_accepted; [|exact Hrun]. constructor. }
  split; [exact Hok|]. split.
  - intros r Hr Hin. rewrite Forall_forall in Hok.
    destruct (accepted_not_nan_posinf r (Hok r Hin)) as [H1 H2].
    destruct Hr; done.
  - intros Hscan fuel' n'. now apply scan_loop_raises.
Qed.

Lemma scan_many_rejects_nan_and_posinf_witness :
  scan_many 4 nan_then_converged 1
  = Returns {| ret := [converged]; seed := 2;
               calls := [(1%Z, restart_scale); (2%Z, restart_scale)] |}
  /\ ill_conditioned ∉ [converged].
Proof.
  assert (Hrun : scan_many 4 nan_then_converged 1
                 = Returns {| ret := [converged]; seed := 2;
                              calls := [(1%Z, restart_scale); (2%Z, restart_scale)] |})
    by reflexivity.
  split; [exact Hrun|].
  apply (proj1 (proj2 (scan_many_rejects_nan_and_posinf _ _ _ _ Hrun)) ill_conditioned).
  left. reflexivity.
Defined.

(** The driver accepts an attempt with a non-finite potential, and one
    with a non-finite stationarity, when the comparison with [1e-3]
    succeeds. *)
Lemma scan_many_accepts_nonfinite_counterexample :
  is_finite (scanned_potential nan_potential) = false
  /\ scan_many 2 (fun _ _ => Returns nan_potential) 1
     = Returns {| ret := [nan_potential]; seed := 1;
                  calls := [(1%Z, restart_scale)] |}
  /\ is_finite (scanned_stationarity neginf_stationarity) = false
  /\ scan_many 2 (fun _ _ => Returns neginf_stationarity) 1
     = Returns {| ret := [neginf_stationarity]; seed := 1;
                  calls := [(1%Z, restart_scale)] |}.
Proof. repeat split. Qed.

(** ** Equality of complex numbers and sums *)

Lemma Ceq_refl a : Ceq a a.
Proof. split; reflexivity. Qed.

Lemma Ceq_sym a b : Ceq a b -> Ceq b a.
Proof. intros [H1 H2]. split; now symmetry. Qed.

Lemma Ceq_trans a b c : Ceq a b -> Ceq b c -> Ceq a c.
Proof. intros [H1 H2] [H3 H4]. split; etransitivity; eassumption. Qed.

#[global] Instance Ceq_equivalence : Equivalence Ceq.
Proof. split; [exact Ceq_refl|exact Ceq_sym|exact Ceq_trans]. Qed.

#[global] Instance Cadd_proper : Proper (Ceq ==> Ceq ==> Ceq) Cadd.
Proof. intros a a' [H1 H2] b b' [H3 H4]. split; simpl; now rewrite ?H1, ?H2, ?H3, ?H4. Qed.

#[global] Instance Csub_proper : Proper (Ceq ==> Ceq ==> Ceq) Csub.
Proof. intros a a' [H1 H2] b b' [H3 H4]. split; simpl; now rewrite ?H1, ?H2, ?H3, ?H4. Qed.

#[global] Instance Cmul_proper : Proper (Ceq ==> Ceq ==> Ceq) Cmul.
Proof. intros a a' [H1 H2] b b' [H3 H4]. split; simpl; now rewrite ?H1, ?H2, ?H3, ?H4. Qed.

#[global] Instance Cscale_proper : Proper (Qeq ==> Ceq ==> Ceq) Cscale.
Proof. intros x x' Hx a a' [H1 H2]. split; simpl; now rewrite ?Hx, ?H1, ?H2. Qed.

#[global] Instance re_proper : Proper (Ceq ==> Qeq) re.
Proof. now intros a a' [H1 H2]. Qed.

#[global] Instance im_proper : Proper (Ceq ==> Qeq) im.
Proof. now intros a a' [H1 H2]. Qed.

Lemma sumQ_ext n (f g : nat -> Q) :
  (forall k, k < n -> f k == g k) -> sum_range n f == sum_range n g.
Proof.
  induction n as [|n IH]; intros Hfg; [reflexivity|].
  cbn [sum_range nadd Num_Q]. rewrite IH, (Hfg n) by (intros; try apply Hfg; lia).
  reflexivity.
Qed.

Lemma sumC_ext n (f g : nat -> C) :
  (forall k, k < n -> Ceq (f k) (g k)) -> Ceq (sum_range n f) (sum_range n g).
Proof.
  induction n as [|n IH]; intros Hfg; [reflexivity|].
  cbn [sum_range nadd Num_C]. rewrite IH, (Hfg n) by (intros; try apply Hfg; lia).
  reflexivity.
Qed.

(** ** The stationarity measure *)

Lemma proj_35_8888_dims w : dims (Sugra.proj_35_8888 w) = [35; 8; 8; 8; 8].
Proof. destruct w; vm_compute; reflexivity. Qed.

Ltac unfold_contractions :=
  lazy -[sum_range Cadd Cmul Csub Cscale Cconj Copp RtoC
         Qplus Qmult Qminus Qdiv Qopp Qinv].

Lemma stationarity_unfolded (A1 A2 : tensor C) :
  dims A1 = [8; 8] -> dims A2 = [8; 8; 8; 8] ->
  Tensor.item (Sugra.tf_so8_sugra_stationarity A1 A2)
  = stationarity_formula 4.0 3.0 A1 A2.
Proof.
  intros H1 H2.
  unfold Sugra.tf_so8_sugra_stationarity, stationarity_formula, project, x0_formula.
  generalize (proj_35_8888_dims true) (proj_35_8888_dims false).
  generalize (Sugra.proj_35_8888 true) (Sugra.proj_35_8888 false).
  intros [d1 P1] [d2 P2] E1 E2. destruct A1 as [da1 a1], A2 as [da2 a2].
  cbn [dims] in *. subst.
  unfold_contractions. reflexivity.
Qed.

Lemma x0_formula_coefficients c4 c4' c3 c3' A1 A2 i j k l :
  c4 == c4' -> c3 == c3' ->
  Ceq (x0_formula c4 c3 A1 A2 i j k l) (x0_formula c4' c3' A1 A2 i j k l).
Proof. intros H4 H3. unfold x0_formula. now rewrite H4, H3. Qed.

Lemma project_ext P f g a :
  (forall i j k l, f i j k l == g i j k l) -> project P f a == project P g a.
Proof.
  intros Hfg. unfold project.
  apply sumQ_ext; intros i _. apply sumQ_ext; intros j _.
  apply sumQ_ext; intros k _. apply sumQ_ext; intros l _.
  now rewrite Hfg.
Qed.

Lemma stationarity_formula_coefficients c4 c4' c3 c3' A1 A2 :
  c4 == c4' -> c3 == c3' ->
  stationarity_formula c4 c3 A1 A2 == stationarity_formula c4' c3' A1 A2.
Proof.
  intros H4 H3. unfold stationarity_formula.
  assert (Hre : forall a,
    project (Sugra.proj_35_8888 true)
      (fun i j k l => re (x0_formula c4 c3 A1 A2 i j k l)) a
    == project (Sugra.proj_35_8888 true)
         (fun i j k l => re (x0_formula c4' c3' A1 A2 i j k l)) a).
  { intros a. apply project_ext. intros i j k l.
    now rewrite (x0_formula_coefficients c4 c4' c3 c3'). }
  assert (Him : forall a,
    project (Sugra.proj_35_8888 false)
      (fun i j k l => im (x0_formula c4 c3 A1 A2 i j k l)) a
    == project (Sugra.proj_35_8888 false)
         (fun i j k l => im (x0_formula c4' c3' A1 A2 i j k l)) a).
  { intros a. apply project_ext. intros i j k l.
    now rewrite (x0_formula_coefficients c4 c4' c3 c3'). }
  apply Qplus_comp; apply sumQ_ext; intros a _.
  - apply Qmult_comp; apply Hre.
  - apply Qmult_comp; apply Him.
Qed.

(** C3: for an 8 x 8 tensor [A1] and an 8 x 8 x 8 x 8 tensor [A2], the
    stationarity evaluator returns the scalar [s . s + t . t], where
    [X0[i,j,k,l] = 4 sum_m A1[m,i] A2[m,j,k,l]
                   - 3 sum_{m,n} A2[m,n,i,j] A2[n,k,l,m]],
    [s] is the 35-vector contracting the self-dual projector with
    [Re X0] over its last four indices, and [t] the one contracting the
    anti-self-dual projector with [Im X0]. *)
Theorem stationarity_is_sum_of_squares (A1 A2 : tensor C)
    (H1 : dims A1 = [8; 8]) (H2 : dims A2 = [8; 8; 8; 8]) :
  dims (Sugra.tf_so8_sugra_stationarity A1 A2) = []
  /\ Tensor.item (Sugra.tf_so8_sugra_stationarity A1 A2)
     == stationarity_formula 4 3 A1 A2.
Proof.
  split; [reflexivity|].
  rewrite (stationarity_unfolded A1 A2 H1 H2).
  apply stationarity_formula_coefficients; reflexivity.
Qed.

Lemma stationarity_is_sum_of_squares_witness :
  Tensor.item (Sugra.tf_so8_sugra_stationarity
                 (Tensor.eye 8) (Tensor.zeros [8; 8; 8; 8]))
  == stationarity_formula 4 3 (Tensor.eye 8) (Tensor.zeros [8; 8; 8; 8]).
Proof.
  apply (stationarity_is_sum_of_squares (Tensor.eye 8) (Tensor.zeros [8; 8; 8; 8]));
    reflexivity.
Defined.

(** ** The potential *)

Section PotentialFormulas.

Variable expm : nat -> (nat -> nat -> C) -> nat -> nat -> C.

Lemma potential_structure (t_v70 : tensor Q) :
  let d := Sugra.tf_so8_sugra_potential expm t_v70 in
  Sugra.a1 d = a1_of (Sugra.tee_tensor d)
  /\ Sugra.a2 d = a2_of (Sugra.tee_tensor d)
  /\ Sugra.potential d = potential_of (Sugra.a1 d) (Sugra.a2 d)
  /\ Sugra.vielbein d = Sugra.tf_linalg_expm expm (Sugra.e7_generator_v70 t_v70).
Proof. repeat split; reflexivity. Qed.

Lemma tee_tensor_dims (t_v70 : tensor Q) :
  dims t_v70 = [70] ->
  dims (Sugra.tee_tensor (Sugra.tf_so8_sugra_potential expm t_v70)) = [8; 8; 8; 8].
Proof.
  destruct t_v70 as [dv ev]. cbn [dims]. intros ->.
  vm_compute. reflexivity.
Qed.

End PotentialFormulas.

Lemma a1_of_dims (t_T : tensor C) :
  dims t_T = [8; 8; 8; 8] -> dims (a1_of t_T) = [8; 8].
Proof. destruct t_T as [dT eT]. cbn [dims]. intros ->. reflexivity. Qed.

Lemma a2_of_dims (t_T : tensor C) :
  dims t_T = [8; 8; 8; 8] -> dims (a2_of t_T) = [8; 8; 8; 8].
Proof. destruct t_T as [dT eT]. cbn [dims]. intros ->. reflexivity. Qed.

Lemma a1_of_entry (t_T : tensor C) (i j : nat) :
  dims t_T = [8; 8; 8; 8] ->
  entry (a1_of t_T) [i; j]
  = Cscale (-4.0 / 21.0) (sum_range 8 (fun m => entry t_T [m; i; j; m])).
Proof.
  destruct t_T as [dT eT]. cbn [dims]. intros ->.
  unfold a1_of. unfold_contractions. reflexivity.
Qed.

Lemma a2_of_entry (t_T : tensor C) (l i j k : nat) :
  entry (a2_of t_T) [l; i; j; k]
  = Cscale (-4.0 / (3 * 3))
      (Cadd (Cadd (entry t_T [l; i; j; k]) (entry t_T [l; k; i; j]))
            (entry t_T [l; j; k; i])).
Proof.
  destruct t_T as [dT eT].
  unfold a2_of. unfold_contractions. reflexivity.
Qed.

Lemma potential_of_item (t_A1 t_A2 : tensor C) :
  dims t_A1 = [8; 8] -> dims t_A2 = [8; 8; 8; 8] ->
  Tensor.item (potential_of t_A1 t_A2)
  = ((-3.0 / 4)
     * (sum_squares2 (fun i j => re (entry t_A1 [i; j]))
        + sum_squares2 (fun i j => im (entry t_A1 [i; j])))
     + (1.0 / 24)
       * (sum_squares4 (fun i j k l => re (entry t_A2 [i; j; k; l]))
          + sum_squares4 (fun i j k l => im (entry t_A2 [i; j; k; l]))))%Q.
Proof.
  destruct t_A1 as [d1 e1], t_A2 as [d2 e2]. cbn [dims]. intros -> ->.
  unfold potential_of, sum_squares2, sum_squares4.
  unfold_contractions. reflexivity.
Qed.

Lemma Cadd_swap_last a b c : Ceq (Cadd (Cadd a b) c) (Cadd (Cadd a c) b).
Proof. split; simpl; ring. Qed.

(** C2: with [T] the T-tensor computed by the potential evaluation at a
    70-vector,
    [A1[i,j] = -4/21 sum_m T[m,i,j,m]],
    [A2[l,i,j,k] = -4/9 (T[l,i,j,k] + T[l,j,k,i] + T[l,k,i,j])], and the
    potential is [-3/4 (|Re A1|^2 + |Im A1|^2) + 1/24 (|Re A2|^2 + |Im A2|^2)],
    the norms being sums of squared entries. *)
Theorem potential_from_tee_tensor
    (expm : nat -> (nat -> nat -> C) -> nat -> nat -> C)
    (t_v70 : tensor Q) (Hv : dims t_v70 = [70]) (i j k l : nat) :
  let d := Sugra.tf_so8_sugra_potential expm t_v70 in
  Ceq (entry (Sugra.a1 d) [i; j])
      (Cscale (- (4 # 21)) (sum_range 8 (fun m => entry (Sugra.tee_tensor d) [m; i; j; m])))
  /\ Ceq (entry (Sugra.a2 d) [l; i; j; k])
         (Cscale (- (4 # 9))
            (Cadd (Cadd (entry (Sugra.tee_tensor d) [l; i; j; k])
                        (entry (Sugra.tee_tensor d) [l; j; k; i]))
                  (entry (Sugra.tee_tensor d) [l; k; i; j])))
  /\ Tensor.item (Sugra.potential d) == potential_formula (Sugra.a1 d) (Sugra.a2 d).
Proof.
  intros d.
  destruct (potential_structure expm t_v70) as (E1 & E2 & E3 & _). fold d in E1, E2, E3.
  pose proof (tee_tensor_dims expm t_v70 Hv) as HT. fold d in HT.
  split; [|split].
  - rewrite E1, (a1_of_entry _ i j HT).
    apply Cscale_proper; reflexivity.
  - rewrite E2, a2_of_entry, Cadd_swap_last.
    apply Cscale_proper; reflexivity.
  - rewrite E3, potential_of_item.
    + unfold potential_formula.
      apply Qplus_comp; (apply Qmult_comp; [reflexivity|reflexivity]).
    + rewrite E1. now apply a1_of_dims.
    + rewrite E2. now apply a2_of_dims.
Qed.

(** ** Sums with few nonzero terms *)

Lemma Cadd_0_l a : Ceq (Cadd C0 a) a.
Proof. split; simpl; ring. Qed.

Lemma Cadd_0_r a : Ceq (Cadd a C0) a.
Proof. split; simpl; ring. Qed.

Lemma sumC_zero n (f : nat -> C) :
  (forall k, k < n -> Ceq (f k) C0) -> Ceq (sum_range n f) C0.
Proof.
  induction n as [|n IH]; intros Hf; [reflexivity|].
  cbn [sum_range nadd Num_C]. rewrite IH, (Hf n) by (intros; try apply Hf; lia).
  apply Cadd_0_l.
Qed.

Lemma sumC_add n (f g : nat -> C) :
  Ceq (sum_range n (fun k => Cadd (f k) (g k)))
      (Cadd (sum_range n f) (sum_range n g)).
Proof.
  induction n as [|n IH]; [split; simpl; ring|].
  cbn [sum_range nadd Num_C]. rewrite IH. split; simpl; ring.
Qed.

(** A sum whose only possibly nonzero term is the one at [m]. *)
Lemma sumC_delta n m (h : nat -> C) :
  m < n ->
  Ceq (sum_range n (fun k => if decide (k = m) then h k else C0)) (h m).
Proof.
  induction n as [|n IH]; intros Hm; [lia|].
  cbn [sum_range nadd Num_C].
  destruct (decide (n = m)) as [->|Hne].
  - rewrite sumC_zero; [apply Cadd_0_l|].
    intros k Hk. rewrite decide_False by lia. reflexivity.
  - rewrite IH by lia. apply Cadd_0_r.
Qed.

Lemma sumC_delta2 n m1 m2 (g : nat -> nat -> C) :
  m1 < n -> m2 < n ->
  Ceq (sum_range n (fun i => sum_range n (fun j =>
         if decide ((i, j) = (m1, m2)) then g i j else C0)))
      (g m1 m2).
Proof.
  intros H1 H2.
  rewrite (sumC_ext n _ (fun i => if decide (i = m1) then g i m2 else C0)).
  - now apply (sumC_delta n m1 (fun i => g i m2)).
  - intros i Hi. destruct (decide (i = m1)) as [->|Hne].
    + rewrite (sumC_ext n _ (fun j => if decide (j = m2) then g m1 j else C0)).
      * now apply (sumC_delta n m2 (fun j => g m1 j)).
      * intros j Hj. destruct (decide (j = m2)) as [->|Hne].
        -- now rewrite decide_True.
        -- rewrite decide_False by congruence. reflexivity.
    + apply sumC_zero. intros j Hj. rewrite decide_False by congruence. reflexivity.
Qed.

Lemma contract_two_point n (c f : nat -> nat -> C) (p1 p2 : nat * nat) :
  p1.1 < n -> p1.2 < n -> p2.1 < n -> p2.2 < n -> p1 <> p2 ->
  (forall i j, i < n -> j < n -> c i j = two_point p1 p2 i j) ->
  Ceq (sum_range n (fun i => sum_range n (fun j => Cmul (f i j) (c i j))))
      (Csub (f p1.1 p1.2) (f p2.1 p2.2)).
Proof.
  destruct p1 as [a1 b1], p2 as [a2 b2]. cbn [fst snd].
  intros Ha1 Hb1 Ha2 Hb2 Hne Hc.
  rewrite (sumC_ext n _ (fun i =>
    Cadd (sum_range n (fun j => if decide ((i, j) = (a1, b1)) then f i j else C0))
         (sum_range n (fun j => if decide ((i, j) = (a2, b2)) then Copp (f i j) else C0)))).
  - rewrite sumC_add.
    rewrite (sumC_delta2 n a1 b1 f Ha1 Hb1).
    rewrite (sumC_delta2 n a2 b2 (fun i j => Copp (f i j)) Ha2 Hb2).
    split; simpl; ring.
  - intros i Hi. rewrite <- sumC_add. apply sumC_ext. intros j Hj.
    rewrite (Hc i j Hi Hj). unfold two_point.
    destruct (decide ((i, j) = (a1, b1))) as [E1|N1].
    + rewrite decide_False by congruence. split; simpl; ring.
    + destruct (decide ((i, j) = (a2, b2))); split; simpl; ring.
Qed.

(** ** Entries of the e7 generators *)

Lemma e7_dims : dims E7.t_a_ij_kl = [133; 56; 56].
Proof.
  unfold E7.t_a_ij_kl, E7.__init__. change (seq 0 35) with (seq 0 (S 34)).
  destruct (loop_repeated Spin8.instance SU8.instance 34 (Tensor.zeros [133; 56; 56]))
    as [Hd _].
  rewrite Hd, loop_body_assignments, assign_all_dims. reflexivity.
Qed.

Lemma e7_entry_stored idx :
  entry E7.t_a_ij_kl idx
  = default C0 (stored [133; 56; 56]
                  (body_assignments Spin8.instance SU8.instance) idx None).
Proof.
  unfold E7.t_a_ij_kl, E7.__init__. change (seq 0 35) with (seq 0 (S 34)).
  destruct (loop_repeated Spin8.instance SU8.instance 34 (Tensor.zeros [133; 56; 56]))
    as [_ He].
  rewrite He, loop_body_assignments, assign_all_entry. reflexivity.
Qed.

Ltac pick_assignment :=
  lazy -[antiselfdual_block Tensor.einsum Cadd Cmul Csub Cscale Cconj Copp
         E7.Cdiv_real].

Lemma e7_entry_35_28_13 :
  entry E7.t_a_ij_kl [35; 28; 13]
  = Cmul (E7.Cdiv_real Ci 8.0) (entry antiselfdual_block [0; 0; 13]).
Proof.
  rewrite e7_entry_stored.
  unfold body_assignments. cbv zeta. fold antiselfdual_block.
  pick_assignment. reflexivity.
Qed.

Lemma e7_entry_35_13_28 :
  entry E7.t_a_ij_kl [35; 13; 28]
  = Cmul (E7.Cdiv_real (Copp Ci) 8.0) (entry antiselfdual_block [0; 13; 0]).
Proof.
  rewrite e7_entry_stored.
  unfold body_assignments. cbv zeta. fold antiselfdual_block.
  pick_assignment. reflexivity.
Qed.

Section BlockContractions.

Variables G M35 M28 : tensor C.

Lemma block_unfolded q I K :
  dims G = [8; 8; 8; 8; 8; 8] -> dims M35 = [35; 8; 8] -> dims M28 = [28; 8; 8] ->
  entry (Tensor.einsum "qIkl,Kkl->qIK"
           [Tensor.einsum "ijklq,Iij->qIkl"
              [Tensor.einsum "ijklcC,qcC->ijklq" [G; M35]; M28];
            M28]) [q; I; K]
  = contract_28_28 G M35 M28 q I K.
Proof.
  unfold contract_28_28, contract_28, contract_35.
  destruct G as [dG eG], M35 as [d35 e35], M28 as [d28 e28].
  cbn [dims]. intros -> -> ->.
  unfold_contractions. reflexivity.
Qed.

End BlockContractions.

Lemma antiselfdual_block_entry q I K :
  entry antiselfdual_block [q; I; K] = contract_28_28 G_cc M_35 M_28 q I K.
Proof.
  unfold antiselfdual_block. fold G_cc M_35 M_28.
  apply block_unfolded; vm_compute; reflexivity.
Qed.

Lemma row_is_two_point_spec M I p1 p2 :
  row_is_two_point M I p1 p2 = true ->
  forall i j, i < 8 -> j < 8 -> entry M [I; i; j] = two_point p1 p2 i j.
Proof.
  intros Hrow i j Hi Hj. unfold row_is_two_point in Hrow.
  pose proof (forallb_below 8 _ Hrow i Hi) as H1.
  pose proof (forallb_below 8 _ H1 j Hj) as H2. cbv beta in H2.
  now apply bool_decide_eq_true in H2.
Qed.

Lemma M_35_row_0 : row_is_two_point M_35 0 (0, 0) (1, 1) = true.
Proof. vm_compute. reflexivity. Qed.

Lemma M_28_row_0 : row_is_two_point M_28 0 (0, 1) (1, 0) = true.
Proof. vm_compute. reflexivity. Qed.

Lemma M_28_row_13 : row_is_two_point M_28 13 (2, 3) (3, 2) = true.
Proof. vm_compute. reflexivity. Qed.

Lemma contract_35_row_0 i j k l :
  Ceq (contract_35 G_cc M_35 0 i j k l)
      (Csub (entry G_cc [i; j; k; l; 0; 0]) (entry G_cc [i; j; k; l; 1; 1])).
Proof.
  apply (contract_two_point 8 (fun c c' => entry M_35 [0; c; c'])
           (fun c c' => entry G_cc [i; j; k; l; c; c']) (0, 0) (1, 1));
    cbn [fst snd]; try lia; [congruence|].
  apply row_is_two_point_spec, M_35_row_0.
Qed.

Lemma contract_28_row_0 q k l :
  Ceq (contract_28 G_cc M_35 M_28 q 0 k l)
      (Csub (contract_35 G_cc M_35 q 0 1 k l) (contract_35 G_cc M_35 q 1 0 k l)).
Proof.
  apply (contract_two_point 8 (fun i j => entry M_28 [0; i; j])
           (fun i j => contract_35 G_cc M_35 q i j k l) (0, 1) (1, 0));
    cbn [fst snd]; try lia; [congruence|].
  apply row_is_two_point_spec, M_28_row_0.
Qed.

Lemma contract_28_row_13 q k l :
  Ceq (contract_28 G_cc M_35 M_28 q 13 k l)
      (Csub (contract_35 G_cc M_35 q 2 3 k l) (contract_35 G_cc M_35 q 3 2 k l)).
Proof.
  apply (contract_two_point 8 (fun i j => entry M_28 [13; i; j])
           (fun i j => contract_35 G_cc M_35 q i j k l) (2, 3) (3, 2));
    cbn [fst snd]; try lia; [congruence|].
  apply row_is_two_point_spec, M_28_row_13.
Qed.

Lemma contract_28_28_0_13 q :
  Ceq (contract_28_28 G_cc M_35 M_28 q 0 13)
      (Csub (contract_28 G_cc M_35 M_28 q 0 2 3) (contract_28 G_cc M_35 M_28 q 0 3 2)).
Proof.
  apply (contract_two_point 8 (fun k l => entry M_28 [13; k; l])
           (fun k l => contract_28 G_cc M_35 M_28 q 0 k l) (2, 3) (3, 2));
    cbn [fst snd]; try lia; [congruence|].
  apply row_is_two_point_spec, M_28_row_13.
Qed.

Lemma contract_28_28_13_0 q :
  Ceq (contract_28_28 G_cc M_35 M_28 q 13 0)
      (Csub (contract_28 G_cc M_35 M_28 q 13 0 1) (contract_28 G_cc M_35 M_28 q 13 1 0)).
Proof.
  apply (contract_two_point 8 (fun k l => entry M_28 [0; k; l])
           (fun k l => contract_28 G_cc M_35 M_28 q 13 k l) (0, 1) (1, 0));
    cbn [fst snd]; try lia; [congruence|].
  apply row_is_two_point_spec, M_28_row_0.
Qed.

Lemma antiselfdual_block_0_0_13 : Ceq (entry antiselfdual_block [0; 0; 13]) (RtoC 8).
Proof.
  rewrite antiselfdual_block_entry.
  etransitivity; [apply contract_28_28_0_13|].
  etransitivity; [apply Csub_proper; apply contract_28_row_0|].
  etransitivity; [apply Csub_proper; apply Csub_proper; apply contract_35_row_0|].
  split; vm_compute; reflexivity.
Qed.

Lemma antiselfdual_block_0_13_0 : Ceq (entry antiselfdual_block [0; 13; 0]) (RtoC 8).
Proof.
  rewrite antiselfdual_block_entry.
  etransitivity; [apply contract_28_28_13_0|].
  etransitivity; [apply Csub_proper; apply contract_28_row_13|].
  etransitivity; [apply Csub_proper; apply Csub_proper; apply contract_35_row_0|].
  split; vm_compute; reflexivity.
Qed.

(** ** The vielbein *)

Lemma e7_generator_entry (t_v70 : tensor Q) (J I : nat) :
  dims t_v70 = [70] ->
  entry (Sugra.e7_generator_v70 t_v70) [J; I]
  = sum_range 70 (fun k =>
      Cmul (mkC (entry t_v70 [k]) 0.0) (entry E7.t_a_ij_kl [k; I; J])).
Proof.
  unfold Sugra.e7_generator_v70.
  generalize e7_dims. generalize E7.t_a_ij_kl.
  intros [dE eE] HE. destruct t_v70 as [dv ev]. cbn [dims] in *. intros ->. subst dE.
  unfold_contractions. reflexivity.
Qed.

Lemma e7_generator_dims (t_v70 : tensor Q) :
  dims t_v70 = [70] -> dims (Sugra.e7_generator_v70 t_v70) = [56; 56].
Proof.
  unfold Sugra.e7_generator_v70.
  generalize e7_dims. generalize E7.t_a_ij_kl.
  intros [dE eE] HE. destruct t_v70 as [dv ev]. cbn [dims] in *. intros ->. subst dE.
  reflexivity.
Qed.

Lemma e7_generator_transposed (t_v70 : tensor Q) (I J : nat) :
  dims t_v70 = [70] ->
  Ceq (entry (Sugra.e7_generator_v70 t_v70) [J; I]) (generator_combination t_v70 I J).
Proof.
  intros Hv. rewrite (e7_generator_entry t_v70 J I Hv).
  unfold generator_combination. apply sumC_ext. intros k _.
  apply Cmul_proper; [|reflexivity]. split; reflexivity.
Qed.

Lemma expm_entry expm (t : tensor C) (i j : nat) :
  dims t = [56; 56] ->
  entry (Sugra.tf_linalg_expm expm t) [i; j]
  = expm 56 (fun a b => entry t [a; b]) i j.
Proof. unfold Sugra.tf_linalg_expm. cbn [entry]. intros ->. reflexivity. Qed.

Lemma Cmul_0_l a : Ceq (Cmul C0 a) C0.
Proof. split; simpl; ring. Qed.

(** C1, as the code has it: for a 70-vector [v70], the matrix that is
    exponentiated has at row [J] and column [I] the entry
    [sum_{k<70} v70[k] generator[k][I,J]]: it is the transpose of the
    combination [G = sum_{k<70} v70[k] generator[k]] of the first 70
    generators, and the vielbein is the matrix exponential of that
    transpose.  At the zero vector the vielbein is the 56 x 56 identity. *)
Theorem vielbein_is_exponential_of_transpose
    (expm : nat -> (nat -> nat -> C) -> nat -> nat -> C)
    (t_v70 : tensor Q) (Hv : dims t_v70 = [70])
    (Hext : expm_respects_equality expm)
    (Hzero : expm_of_zero_is_identity expm) (i j : nat) (Hi : i < 56) (Hj : j < 56) :
  let d := Sugra.tf_so8_sugra_potential expm t_v70 in
  (forall I J,
     Ceq (entry (Sugra.e7_generator_v70 t_v70) [J; I]) (generator_combination t_v70 I J))
  /\ entry (Sugra.vielbein d) [i; j]
     = expm 56 (fun a b => entry (Sugra.e7_generator_v70 t_v70) [a; b]) i j
  /\ Ceq (entry (Sugra.vielbein d) [i; j])
         (expm 56 (fun a b => generator_combination t_v70 b a) i j)
  /\ ((forall k, k < 70 -> entry t_v70 [k] == 0) ->
      Ceq (entry (Sugra.vielbein d) [i; j]) (identity_matrix i j)).
Proof.
  intros d.
  destruct (potential_structure expm t_v70) as (_ & _ & _ & E). fold d in E.
  assert (Hentry : entry (Sugra.vielbein d) [i; j]
     = expm 56 (fun a b => entry (Sugra.e7_generator_v70 t_v70) [a; b]) i j).
  { rewrite E. apply expm_entry. now apply e7_generator_dims. }
  assert (Htr : Ceq (entry (Sugra.vielbein d) [i; j])
                    (expm 56 (fun a b => generator_combination t_v70 b a) i j)).
  { rewrite Hentry. apply Hext; [|done|done].
    intros a b _ _. now apply e7_generator_transposed. }
  split; [intros I J; now apply e7_generator_transposed|].
  split; [exact Hentry|]. split; [exact Htr|].
  intros Hv0. rewrite Htr, <- (Hzero 56 i j Hi Hj).
  apply Hext; [|done|done]. intros a b _ _.
  unfold generator_combination. apply sumC_zero. intros k Hk.
  rewrite <- (Cmul_0_l (entry E7.t_a_ij_kl [k; b; a])).
  apply Cmul_proper; [|reflexivity]. split; simpl; [now apply Hv0|reflexivity].
Qed.

Lemma first_order_expm_respects_equality : expm_respects_equality first_order_expm.
Proof.
  intros n M M' HM i j Hi Hj. unfold first_order_expm.
  now rewrite (HM i j Hi Hj).
Qed.

Lemma first_order_expm_of_zero : expm_of_zero_is_identity first_order_expm.
Proof. intros n i j Hi Hj. unfold first_order_expm. apply Cadd_0_r. Qed.

Lemma vielbein_is_exponential_of_transpose_witness :
  Ceq (entry (Sugra.vielbein (Sugra.tf_so8_sugra_potential first_order_expm zero_70))
         [3; 3])
      (identity_matrix 3 3).
Proof.
  assert (H3 : 3 < 56) by lia.
  apply (vielbein_is_exponential_of_transpose first_order_expm zero_70 eq_refl
           first_order_expm_respects_equality first_order_expm_of_zero 3 3 H3 H3).
  intros k Hk. reflexivity.
Defined.

Lemma potential_from_tee_tensor_witness :
  Ceq (entry (Sugra.a1 (Sugra.tf_so8_sugra_potential first_order_expm zero_70)) [1; 2])
      (Cscale (- (4 # 21))
         (sum_range 8 (fun m =>
            entry (Sugra.tee_tensor
                     (Sugra.tf_so8_sugra_potential first_order_expm zero_70))
              [m; 1; 2; m]))).
Proof.
  pose proof (potential_from_tee_tensor first_order_expm zero_70 eq_refl 1 2 0 0) as H.
  cbv zeta in H. destruct H as (H1 & _ & _). exact H1.
Defined.

Lemma generator_combination_unit_35 I J :
  Ceq (generator_combination unit_35 I J) (entry E7.t_a_ij_kl [35; I; J]).
Proof.
  unfold generator_combination.
  rewrite (sumC_ext 70 _ (fun k =>
    if decide (k = 35) then entry E7.t_a_ij_kl [k; I; J] else C0)).
  - apply (sumC_delta 70 35 (fun k => entry E7.t_a_ij_kl [k; I; J])). lia.
  - intros k Hk. cbn [unit_35 entry].
    generalize (entry E7.t_a_ij_kl [k; I; J]). intros g.
    destruct (decide (k = 35)); split; simpl; ring.
Qed.

Lemma generator_35_lower : Ceq (entry E7.t_a_ij_kl [35; 28; 13]) (mkC 0 1).
Proof.
  rewrite e7_entry_35_28_13, antiselfdual_block_0_0_13.
  split; vm_compute; reflexivity.
Qed.

Lemma generator_35_upper : Ceq (entry E7.t_a_ij_kl [35; 13; 28]) (mkC 0 (-1)).
Proof.
  rewrite e7_entry_35_13_28, antiselfdual_block_0_13_0.
  split; vm_compute; reflexivity.
Qed.

(** Generator 35 is not symmetric, so the matrix that is exponentiated at
    the unit vector along it differs from the combination [G] itself: at
    row 28 and column 13 the code has [-i] where [G] has [+i].  With the
    exponential truncated after its linear term, the vielbein differs
    from the exponential of [G] at that entry. *)
Lemma vielbein_exponent_counterexample :
  dims unit_35 = [70]
  /\ Ceq (entry (Sugra.e7_generator_v70 unit_35) [28; 13]) (mkC 0 (-1))
  /\ Ceq (generator_combination unit_35 28 13) (mkC 0 1)
  /\ ~ Ceq (entry (Sugra.e7_generator_v70 unit_35) [28; 13])
           (generator_combination unit_35 28 13)
  /\ expm_respects_equality first_order_expm
  /\ expm_of_zero_is_identity first_order_expm
  /\ ~ Ceq (entry (Sugra.vielbein
                     (Sugra.tf_so8_sugra_potential first_order_expm unit_35)) [28; 13])
           (first_order_expm 56 (generator_combination unit_35) 28 13).
Proof.
  assert (Hcode : Ceq (entry (Sugra.e7_generator_v70 unit_35) [28; 13]) (mkC 0 (-1))).
  { rewrite (e7_generator_transposed unit_35 13 28 eq_refl).
    rewrite generator_combination_unit_35. apply generator_35_upper. }
  assert (Hspec : Ceq (generator_combination unit_35 28 13) (mkC 0 1)).
  { rewrite generator_combination_unit_35. apply generator_35_lower. }
  split; [reflexivity|]. split; [exact Hcode|]. split; [exact Hspec|].
  split; [|split; [exact first_order_expm_respects_equality|
                   split; [exact first_order_expm_of_zero|]]].
  - rewrite Hcode, Hspec. intros [_ H]. vm_compute in H. discriminate H.
  - destruct (potential_structure first_order_expm unit_35) as (_ & _ & _ & E).
    cbv zeta in E. rewrite E.
    rewrite (expm_entry first_order_expm _ 28 13 (e7_generator_dims unit_35 eq_refl)).
    unfold first_order_expm. rewrite Hcode, Hspec.
    intros [_ H]. vm_compute in H. discriminate H.
Qed.
